(** * Unique_ptr: a shallow embedding of include/unique_ptr.h

    The class template [Unique_ptr<T, D>] is embedded as a record that is
    polymorphic in the deleter type.  Objects live in a store indexed by
    object identity, so that the reference parameters of the member
    functions ([*this] and [u]) may alias, as they do in a
    self-move-assignment.  A call of a deleter is an effect: it acts on a
    world and is recorded in a log.

    Part I holds the definitions, Parts II and III the lemmas and
    theorems. *)

From Stdlib Require Import NArith Lia.
From stdpp Require Import gmap list.

Local Open Scope N_scope.

(** * Part I: the program *)

(** ** Pointers

    Element types are erased: a [pointer] is the address of the owned
    resource, [nullptr] is address 0, and the implicit conversions between
    pointers to related element types keep the address. *)

Abbreviation pointer := N (only parsing).
Abbreviation nullptr := 0%N (only parsing).

(** Identity (storage location) of a [Unique_ptr] object. *)
Abbreviation ref := positive (only parsing).

Module detail.

(** [Compressed_pair<T, D>]: the stored pointer and the stored deleter.
    The primary template and the empty-base specialization offer the same
    two accessors; the values they give access to are the two fields
    below.  The two class definitions differ in where the deleter is
    stored (a base class when [D] is an empty class that is not final,
    line 52, and a second data member otherwise), not in what the
    accessors return. *)
Record Compressed_pair (T D : Type) : Type :=
  Build { first_ : T; second_ : D }.
Arguments Build {T D} _ _.
Arguments first_ {T D} _.
Arguments second_ {T D} _.

Section accessors.
Context {T D : Type}.

(** [first()] and [second()], read through the returned reference. *)
Definition first (c : Compressed_pair T D) : T := first_ c.
Definition second (c : Compressed_pair T D) : D := second_ c.

(** [first() = v] and [second() = d], written through the returned
    reference. *)
Definition set_first (v : T) (c : Compressed_pair T D) : Compressed_pair T D :=
  Build v (second_ c).
Definition set_second (d : D) (c : Compressed_pair T D) : Compressed_pair T D :=
  Build (first_ c) d.

End accessors.

End detail.

(** ** The class template *)

Record Unique_ptr (D : Type) : Type :=
  Build_Unique_ptr' { pair_ : detail.Compressed_pair pointer D }.
Arguments Build_Unique_ptr' {D} _.
Arguments pair_ {D} _.

(** The object whose stored pointer is [p] and whose stored deleter is [d]. *)
Definition mk {D : Type} (p : pointer) (d : D) : Unique_ptr D :=
  Build_Unique_ptr' (detail.Build p d).

(** *** Observers: const member functions, functions of the object *)

(** [get()]: [return pair_.first();] *)
Definition get {D : Type} (x : Unique_ptr D) : pointer :=
  detail.first (pair_ x).

(** [get_deleter()]: [return pair_.second();] *)
Definition get_deleter {D : Type} (x : Unique_ptr D) : D :=
  detail.second (pair_ x).

(** [explicit operator bool()]: [return get() != nullptr;] *)
Definition operator_bool {D : Type} (x : Unique_ptr D) : bool :=
  negb (get x =? nullptr).

(** [operator->()]: [return get();] *)
Definition operator_arrow {D : Type} (x : Unique_ptr D) : pointer := get x.

(** *** Comparison: free function templates over two instantiations *)

(** [operator==(x, y)]: [return x.get() == y.get();] *)
Definition operator_eq {D1 D2 : Type}
    (x : Unique_ptr D1) (y : Unique_ptr D2) : bool :=
  get x =? get y.

(** [operator==(x, nullptr)]: [return !x;] *)
Definition operator_eq_nullptr {D : Type} (x : Unique_ptr D) : bool :=
  negb (operator_bool x).

(** [operator<=>(x, y)]: [compare_three_way()(x.get(), y.get())] *)
Definition operator_cmp {D1 D2 : Type}
    (x : Unique_ptr D1) (y : Unique_ptr D2) : comparison :=
  get x ?= get y.

(** [operator<=>(x, nullptr)] *)
Definition operator_cmp_nullptr {D : Type} (x : Unique_ptr D) : comparison :=
  get x ?= nullptr.

(** ** Deleters

    A deleter is a value with a function call operator.  The call acts on
    a world of type [W] (whatever the deleter releases or records).  It
    may read the live [Unique_ptr] objects, the one that makes the call
    included, but it does not write them: the call has well-defined
    behaviour, as the preconditions of the destructor and of [reset]
    demand.

    Deleters are held by value.  Moving a deleter (constructing one from
    an rvalue deleter, or assigning an rvalue deleter to one) gives the
    destination the value the source had: these are the
    Cpp17MoveConstructible and Cpp17MoveAssignable requirements that the
    move constructor and the move assignment operator name as their
    preconditions.  What the move leaves in the source, and what the move
    assignment of a deleter to itself leaves in it, is up to the deleter
    type: [moved_from] and [self_moved].  A deleter type that is a
    reference is covered as far as construction goes, where the reference
    is copied; an assignment through it writes to a referent that other
    objects may share, which the store of objects does not represent. *)

Class Deleter (D W : Type) : Type :=
  call_operator : D → gmap ref (Unique_ptr D) → pointer → W → W.

Class Movable (D : Type) : Type :=
  { moved_from : D → D;   (* [D(std::move(e))], [d = std::move(e)]: left in [e] *)
    self_moved : D → D }. (* [d = std::move(d)]: left in [d] *)

(** Value-initialization of the stored deleter,
    [requires(std::is_default_constructible_v<deleter_type>)]. *)
Class DefaultConstructible (D : Type) : Type := value_init : D.

(** [Default_delete<T>]: stateless; [operator()(T *ptr)] is [delete ptr].
    Its world is the set of the addresses that are allocated. *)
Inductive Default_delete : Type := default_delete.

#[export] Instance Default_delete_call : Deleter Default_delete (gset N) :=
  λ _ _ ptr heap, heap ∖ {[ ptr ]}.

#[export] Instance Default_delete_init : DefaultConstructible Default_delete :=
  default_delete.

#[export] Instance Default_delete_move : Movable Default_delete :=
  {| moved_from := id; self_moved := id |}.

(** ** The abstract machine *)

(** One call [d(p)] of a deleter, with the objects as they were when the
    call was made. *)
Record event (D : Type) : Type :=
  Call { ev_deleter : D; ev_arg : pointer;
         ev_objs : gmap ref (Unique_ptr D) }.
Arguments Call {D} _ _ _.
Arguments ev_deleter {D} _.
Arguments ev_arg {D} _.
Arguments ev_objs {D} _.

(** [objs]: the live objects; [world]: what the deleters act on; [calls]:
    the calls of deleters made so far, oldest first.  In a program that
    uses several instantiations of the template, [D] is the sum of their
    deleter types. *)
Record machine (D W : Type) : Type :=
  Machine { objs : gmap ref (Unique_ptr D); world : W;
            calls : list (event D) }.
Arguments Machine {D W} _ _ _.
Arguments objs {D W} _.
Arguments world {D W} _.
Arguments calls {D W} _.

(** State and failure: a computation fails ([None]) when it uses an object
    that is not live, or constructs an object where one is live. *)
Definition M (D W A : Type) : Type := machine D W → option (A * machine D W).

Definition ret {D W A : Type} (a : A) : M D W A := λ m, Some (a, m).

Definition bind {D W A B : Type} (c : M D W A) (k : A → M D W B) : M D W B :=
  λ m, match c m with
       | Some (a, m') => k a m'
       | None => None
       end.

Notation "'let*' x ':=' c 'in' k" := (bind c (λ x, k))
  (at level 10, x name, c at level 100, k at level 200).
Notation "c ';;' k" := (bind c (λ _, k))
  (at level 100, k at level 200, right associativity).

Section machine.
Context {D W : Type} `{!Deleter D W} `{!Movable D}.

(** *** Access to an object through a reference *)

Definition fetch (this : ref) : M D W (Unique_ptr D) :=
  λ m, match objs m !! this with
       | Some x => Some (x, m)
       | None => None
       end.

Definition update (this : ref) (x : Unique_ptr D) : M D W unit :=
  λ m, match objs m !! this with
       | Some _ => Some (tt, Machine (<[this := x]> (objs m)) (world m) (calls m))
       | None => None
       end.

(** [this->pair_.first() = p;] *)
Definition assign_first (this : ref) (p : pointer) : M D W unit :=
  let* x := fetch this in
  update this (Build_Unique_ptr' (detail.set_first p (pair_ x))).

(** A write of [d] to the stored deleter of the object at [this]. *)
Definition assign_deleter (this : ref) (d : D) : M D W unit :=
  let* x := fetch this in
  update this (Build_Unique_ptr' (detail.set_second d (pair_ x))).

(** [d(p)]: the call of a deleter. *)
Definition invoke (d : D) (p : pointer) : M D W unit :=
  λ m, Some (tt, Machine (objs m)
                         (call_operator d (objs m) p (world m))
                         (calls m ++ [Call d p (objs m)])).

(** The lifetime of the object at [this] begins, with value [x]. *)
Definition construct (this : ref) (x : Unique_ptr D) : M D W unit :=
  λ m, match objs m !! this with
       | Some _ => None
       | None => Some (tt, Machine (<[this := x]> (objs m)) (world m) (calls m))
       end.

(** The lifetime of the object at [this] ends. *)
Definition destroy (this : ref) : M D W unit :=
  λ m, match objs m !! this with
       | Some _ => Some (tt, Machine (delete this (objs m)) (world m) (calls m))
       | None => None
       end.

(** *** Modifiers *)

(** [release()] (lines 328-333). *)
Definition release (this : ref) : M D W pointer :=
  let* x := fetch this in
  let ret_ := detail.first (pair_ x) in
  assign_first this nullptr ;;
  ret ret_.

(** [reset(p)] (lines 338-345). *)
Definition reset (this : ref) (p : pointer) : M D W unit :=
  let* x := fetch this in
  let old_p := detail.first (pair_ x) in
  assign_first this p ;;
  if negb (old_p =? nullptr) then
    let* x' := fetch this in
    invoke (get_deleter x') old_p
  else ret tt.

(** [std::swap(a, b)] on the stored pointers of two objects:
    [tmp = a; a = b; b = tmp]. *)
Definition swap_first (this u : ref) : M D W unit :=
  let* x := fetch this in
  let tmp := detail.first (pair_ x) in
  let* y := fetch u in
  assign_first this (detail.first (pair_ y)) ;;
  assign_first u tmp.

(** [get_deleter() = std::forward<D>(u.get_deleter());] (line 250): the
    move assignment of the deleter of [u] to the deleter of [this], which
    may be the same object. *)
Definition move_deleter (this u : ref) : M D W unit :=
  let* y := fetch u in
  if decide (this = u) then
    assign_deleter this (self_moved (get_deleter y))
  else
    assign_deleter this (get_deleter y) ;;
    assign_deleter u (moved_from (get_deleter y)).

(** [std::swap(a, b)] on the stored deleters:
    [D tmp(std::move(a)); a = std::move(b); b = std::move(tmp);] *)
Definition swap_second (this u : ref) : M D W unit :=
  let* x := fetch this in
  let tmp := detail.second (pair_ x) in
  assign_deleter this (moved_from tmp) ;;
  move_deleter this u ;;
  assign_deleter u tmp.

(** [swap(u)] (lines 349-353). *)
Definition swap (this u : ref) : M D W unit :=
  swap_first this u ;;
  swap_second this u.

(** *** Constructors *)

(** [Unique_ptr()] and [Unique_ptr(nullptr_t)]: [pair_{}]. *)
Definition ctor_default `{!DefaultConstructible D} (this : ref) : M D W unit :=
  construct this (mk nullptr value_init).

(** [Unique_ptr(pointer p)]: [pair_(p)]. *)
Definition ctor_ptr `{!DefaultConstructible D} (this : ref) (p : pointer)
    : M D W unit :=
  construct this (mk p value_init).

(** [Unique_ptr(pointer p, const D &d)] and
    [Unique_ptr(pointer p, remove_reference_t<D> &&d)]: [pair_(p, d)]. *)
Definition ctor_ptr_deleter (this : ref) (p : pointer) (d : D) : M D W unit :=
  construct this (mk p d).

(** [Unique_ptr(Unique_ptr &&u)] (lines 201-205):
    [pair_(u.release(), std::forward<D>(u.get_deleter()))]: the stored
    deleter is move-constructed from the deleter of [u]. *)
Definition ctor_move (this u : ref) : M D W unit :=
  let* p := release u in
  let* y := fetch u in
  construct this (mk p (get_deleter y)) ;;
  assign_deleter u (moved_from (get_deleter y)).

(** [Unique_ptr(Unique_ptr<U, E> &&u)] (lines 214-222), with the same
    initializer.  [conv e] is the construction of a [D] from
    [std::forward<D>(e)] for the deleter [e] of [u]: the deleter that is
    constructed, and what the construction leaves in [e]. *)
Definition ctor_convert (conv : D → D * D) (this u : ref) : M D W unit :=
  let* p := release u in
  let* y := fetch u in
  construct this (mk p (fst (conv (get_deleter y)))) ;;
  assign_deleter u (snd (conv (get_deleter y))).

(** *** Destructor (lines 230-235) *)
Definition dtor (this : ref) : M D W unit :=
  let* x := fetch this in
  (if negb (get x =? nullptr) then invoke (get_deleter x) (get x)
   else ret tt) ;;
  destroy this.

(** *** Assignment *)

(** [operator=(Unique_ptr &&u)] (lines 246-252). *)
Definition assign_move (this u : ref) : M D W unit :=
  let* p := release u in
  reset this p ;;
  move_deleter this u.

(** [operator=(Unique_ptr<U, E> &&u)] (lines 262-270).  [conv e] is the
    assignment [get_deleter() = std::forward<E>(e)] for the deleter [e] of
    [u]: the deleter that [*this] has afterwards, and what the assignment
    leaves in [e]. *)
Definition assign_convert (conv : D → D * D) (this u : ref) : M D W unit :=
  let* p := release u in
  reset this p ;;
  let* y := fetch u in
  assign_deleter this (fst (conv (get_deleter y))) ;;
  assign_deleter u (snd (conv (get_deleter y))).

(** [operator=(nullptr_t)] (lines 275-279): [reset();] *)
Definition assign_nullptr (this : ref) : M D W unit :=
  reset this nullptr.

(** *** Specialized algorithm: [swap(x, y)] is [x.swap(y);] *)
Definition swap_free (x y : ref) : M D W unit := swap x y.

End machine.

(** ** The public operations as data *)

(** The operations of the class that change an object.  The copy
    constructor and the copy assignment operator are deleted (lines
    356-357): there is no operation for them. *)
Inductive op (D : Type) : Type :=
| Ctor_default (this : ref)
| Ctor_ptr (this : ref) (p : pointer)
| Ctor_ptr_deleter (this : ref) (p : pointer) (d : D)
| Ctor_move (this u : ref)
| Ctor_convert (conv : D → D * D) (this u : ref)
| Dtor (this : ref)
| Assign_move (this u : ref)
| Assign_convert (conv : D → D * D) (this u : ref)
| Assign_nullptr (this : ref)
| Call_release (this : ref)
| Call_reset (this : ref) (p : pointer)
| Call_swap (this u : ref)
| Call_swap_free (x y : ref).
Arguments Ctor_default {D} _.
Arguments Ctor_ptr {D} _ _.
Arguments Ctor_ptr_deleter {D} _ _ _.
Arguments Ctor_move {D} _ _.
Arguments Ctor_convert {D} _ _ _.
Arguments Dtor {D} _.
Arguments Assign_move {D} _ _.
Arguments Assign_convert {D} _ _ _.
Arguments Assign_nullptr {D} _.
Arguments Call_release {D} _.
Arguments Call_reset {D} _ _.
Arguments Call_swap {D} _ _.
Arguments Call_swap_free {D} _ _.

Section ownership.
Context {D W : Type} `{!Deleter D W} `{!Movable D}
  `{!DefaultConstructible D}.
Implicit Types (m : machine D W) (s : gmap ref (Unique_ptr D))
  (x y : Unique_ptr D) (this u i j : ref) (p q : pointer) (o : op D).

Definition exec o : M D W unit :=
  match o with
  | Ctor_default this => ctor_default this
  | Ctor_ptr this p => ctor_ptr this p
  | Ctor_ptr_deleter this p d => ctor_ptr_deleter this p d
  | Ctor_move this u => ctor_move this u
  | Ctor_convert conv this u => ctor_convert conv this u
  | Dtor this => dtor this
  | Assign_move this u => assign_move this u
  | Assign_convert conv this u => assign_convert conv this u
  | Assign_nullptr this => assign_nullptr this
  | Call_release this => release this ;; ret tt
  | Call_reset this p => reset this p
  | Call_swap this u => swap this u
  | Call_swap_free x y => swap_free x y
  end.

(** The operation is applied to live objects, and a constructor to storage
    that holds no live object. *)
Definition valid o s : Prop :=
  match o with
  | Ctor_default this | Ctor_ptr this _ | Ctor_ptr_deleter this _ _ =>
      s !! this = None
  | Ctor_move this u | Ctor_convert _ this u =>
      s !! this = None ∧ is_Some (s !! u)
  | Dtor this | Assign_nullptr this | Call_release this | Call_reset this _ =>
      is_Some (s !! this)
  | Assign_move this u | Assign_convert _ this u
  | Call_swap this u | Call_swap_free this u =>
      is_Some (s !! this) ∧ is_Some (s !! u)
  end.

(** The pointer an operation takes from its caller, with the object that
    adopts it. *)
Definition adopted o : option (ref * pointer) :=
  match o with
  | Ctor_ptr this p | Ctor_ptr_deleter this p _ | Call_reset this p =>
      Some (this, p)
  | _ => None
  end.

(** The destination and the source of a move. *)
Definition transfer o : option (ref * ref) :=
  match o with
  | Ctor_move this u | Ctor_convert _ this u
  | Assign_move this u | Assign_convert _ this u => Some (this, u)
  | _ => None
  end.

(** No two live objects hold the same non-null stored pointer. *)
Definition unique_ownership s : Prop :=
  ∀ i j x y, s !! i = Some x → s !! j = Some y →
             get x = get y → get x ≠ nullptr → i = j.

(** [p] is null, or no live object other than [this] holds it. *)
Definition unowned_elsewhere s this p : Prop :=
  p = nullptr ∨ ∀ j y, j ≠ this → s !! j = Some y → get y ≠ p.

End ownership.

(** ** The machine after an operation, in closed form *)

Section closed_forms.
Context {D W : Type} `{!Deleter D W}.
Implicit Types (m : machine D W) (x y : Unique_ptr D) (this u : ref)
  (p : pointer).

(** After [reset(p)] on the object at [this], of value [x]. *)
Definition after_reset m this x p : machine D W :=
  let s := <[this := mk p (get_deleter x)]> (objs m) in
  if negb (get x =? nullptr)
  then Machine s (call_operator (get_deleter x) s (get x) (world m))
               (calls m ++ [Call (get_deleter x) (get x) s])
  else Machine s (world m) (calls m).

(** After the destructor of the object at [this], of value [x]. *)
Definition after_dtor m this x : machine D W :=
  if negb (get x =? nullptr)
  then Machine (delete this (objs m))
               (call_operator (get_deleter x) (objs m) (get x) (world m))
               (calls m ++ [Call (get_deleter x) (get x) (objs m)])
  else Machine (delete this (objs m)) (world m) (calls m).

(** After [*this = std::move(u)], for objects of values [x] and [y]:
    [dn] is the deleter [*this] has afterwards and [dr] the one [u] is
    left with (when they are two objects).  The call, if any, is the one
    that [reset(u.release())] makes. *)
Definition after_assign m this u x y (dn dr : D) : machine D W :=
  let m1 := Machine (<[u := mk nullptr (get_deleter y)]> (objs m))
                    (world m) (calls m) in
  let x1 := if decide (this = u) then mk nullptr (get_deleter y) else x in
  let m2 := after_reset m1 this x1 (get y) in
  Machine (<[this := mk (get y) dn]> (<[u := mk nullptr dr]> (objs m)))
          (world m2) (calls m2).

End closed_forms.

(** ** Fixtures: concrete deleters, deleter types and machines *)

(** A deleter that, when it is called, reads [get()] of the object at
    [observed] and appends what it read to the world. *)
Record Probe : Type := probe { observed : ref }.

#[export] Instance Probe_call : Deleter Probe (list (option N)) :=
  λ d s _ w, w ++ [get <$> s !! observed d].

#[export] Instance Probe_move : Movable Probe :=
  {| moved_from := id; self_moved := id |}.

(** A deleter with a list of labels, as a deleter with a [std::vector]
    member has: a move leaves the source without labels.  When it is
    called it records the pointer and its labels. *)
Record Labelled : Type := labelled { labels : list N }.

#[export] Instance Labelled_call : Deleter Labelled (list (N * list N)) :=
  λ d _ p w, w ++ [(p, labels d)].

#[export] Instance Labelled_move : Movable Labelled :=
  {| moved_from := λ _, labelled []; self_moved := λ _, labelled [] |}.

(** Two objects that own the allocations at 5 and 7 through
    [Default_delete]. *)
Definition two_owners : machine Default_delete (gset N) :=
  Machine (<[2%positive := mk 7 default_delete]>
             (<[1%positive := mk 5 default_delete]> ∅))
          ({[ 5; 7 ]}) [].

(** The same, with a third object that owns nothing. *)
Definition two_owners_one_empty : machine Default_delete (gset N) :=
  Machine (<[3%positive := mk nullptr default_delete]> (objs two_owners))
          (world two_owners) [].

(** Two objects that own 5 and 7 through labelled deleters. *)
Definition two_labelled : machine Labelled (list (N * list N)) :=
  Machine (<[2%positive := mk 7 (labelled [3])]>
             (<[1%positive := mk 5 (labelled [1; 2])]> ∅)) [] [].

(** An object that owns 5 through a deleter that watches it. *)
Definition watched : machine Probe (list (option N)) :=
  Machine (<[1%positive := mk 5 (probe 1)]> ∅) [] [].

(** No object yet; the allocations at 5 and 7 are what [new S] returned. *)
Definition two_allocations : machine Default_delete (gset N) :=
  Machine ∅ ({[ 5; 7 ]}) [].

(** The programs of tests/unique_ptr.test.cpp, with the values their
    [REQUIRE]s compare.  The objects [up1], [up2] are at 1 and 2. *)

(** "Constructors 5": [up1(new S); up2(std::move(up1));] *)
Definition test_ctor5 : M Default_delete (gset N) (pointer * pointer) :=
  ctor_ptr 1 5 ;;
  ctor_move 2 1 ;;
  let* up2 := fetch 2 in
  let* up1 := fetch 1 in
  ret (get up2, get up1).

(** "Assignment": [up1(new S); up2(p); up1 = std::move(up2); up1 = nullptr;] *)
Definition test_assignment
    : M Default_delete (gset N) (pointer * pointer * pointer) :=
  ctor_ptr 1 5 ;;
  ctor_ptr 2 7 ;;
  assign_move 1 2 ;;
  let* up2 := fetch 2 in
  let* up1 := fetch 1 in
  assign_nullptr 1 ;;
  let* up1' := fetch 1 in
  ret (get up2, get up1, get up1').

(** "Modifiers 1": [up1(p1); p2 = up1.release();] *)
Definition test_modifiers1 : M Default_delete (gset N) (pointer * pointer) :=
  ctor_ptr 1 5 ;;
  let* p2 := release 1 in
  let* up1 := fetch 1 in
  ret (p2, get up1).

(** "Modifiers 2": [up(new S); up.reset(p); up.reset();] *)
Definition test_modifiers2 : M Default_delete (gset N) (pointer * pointer) :=
  ctor_ptr 1 5 ;;
  reset 1 7 ;;
  let* up := fetch 1 in
  reset 1 nullptr ;;
  let* up' := fetch 1 in
  ret (get up, get up').

(** "Modifiers 3": [up1(p1); up2(p2); up1.swap(up2);] *)
Definition test_modifiers3 : M Default_delete (gset N) (pointer * pointer) :=
  ctor_ptr 1 5 ;;
  ctor_ptr 2 7 ;;
  swap 1 2 ;;
  let* up1 := fetch 1 in
  let* up2 := fetch 2 in
  ret (get up1, get up2).

(** The scope of a test ends: the objects at 2 and 1 are destroyed. *)
Definition end_of_scope : M Default_delete (gset N) unit :=
  dtor 2 ;; dtor 1.

(** What a run shows: the result, the arguments of the deleter calls in
    order, and the allocations that remain. *)
Definition outcome {A : Type}
    (r : option (A * machine Default_delete (gset N)))
    : option (A * list pointer * gset N) :=
  (λ '(a, m), (a, ev_arg <$> calls m, world m)) <$> r.

(** ** Creation and dereference

    [new] and [operator*] need the contents of the allocations: here the
    world is a heap that maps each allocated address to what is stored
    there, [Some v] for an object of value [v] and [None] for an object
    whose value is indeterminate. *)

(** Default-initialization of a [T], as [new T] performs it: the value the
    default constructor gives for a class type, no value (an indeterminate
    one) for a scalar type. *)
Class DefaultInit (V : Type) : Type := default_init : option V.

#[export] Instance Z_default_init : DefaultInit Z := None.

(** A class like [struct S] of the tests: its default constructor gives
    the one value of the type. *)
Inductive struct_S : Type := S_object.

#[export] Instance struct_S_default_init : DefaultInit struct_S :=
  Some S_object.


Section creation.
Context {V : Type}.

(** The address the allocation function returns, given the heap. *)
Variable operator_new : gmap N (option V) → pointer.

(** A new-expression that initializes the object to [init]. *)
Definition new_expr (init : option V)
    : M Default_delete (gmap N (option V)) pointer :=
  λ m, let p := operator_new (world m) in
       Some (p, Machine (objs m) (<[p := init]> (world m)) (calls m)).

(** [make_unique<T>(args...)] (lines 369-374):
    [return Unique_ptr<T>(new T(std::forward<Args>(args)...));]
    The returned object is constructed at [this]. *)
Definition make_unique (this : ref) (v : V)
    : M Default_delete (gmap N (option V)) unit :=
  let* p := new_expr (Some v) in
  ctor_ptr this p.

(** [make_unique_for_overwrite<T>()] (lines 378-383):
    [return Unique_ptr<T>(new T);], where [new T] default-initializes. *)
Definition make_unique_for_overwrite `{!DefaultInit V} (this : ref)
    : M Default_delete (gmap N (option V)) unit :=
  let* p := new_expr default_init in
  ctor_ptr this p.

End creation.

(** [operator*()] (lines 287-290): [return *get();], read.  It fails when
    nothing is allocated at [get()], as when [get()] is null. *)
Definition operator_star {D V : Type} (this : ref)
    : M D (gmap N (option V)) (option V) :=
  let* x := fetch this in
  λ m, match world m !! get x with
       | Some c => Some (c, m)
       | None => None
       end.

(** An allocation function: the least address that is neither null nor
    allocated. *)
Definition first_free {V : Type} (heap : gmap N (option V)) : pointer :=
  fresh ({[ nullptr ]} ∪ dom heap).

(** Every non-null pointer that a live object holds is allocated, and
    nothing is allocated at address 0. *)
Definition owned_allocated {D V : Type} (m : machine D (gmap N (option V)))
    : Prop :=
  world m !! nullptr = None ∧
  ∀ i x, objs m !! i = Some x → get x ≠ nullptr → is_Some (world m !! get x).

(** ** [std::swap] on two [Unique_ptr] objects

    The generic [std::swap(a, b)] of <utility>, which the member [swap]
    applies to the stored pointers and deleters, applied to the objects
    themselves: [T tmp(std::move(a)); a = std::move(b); b = std::move(tmp);]
    and the end of the lifetime of [tmp]. *)
Definition std_swap {D W : Type} `{!Deleter D W} `{!Movable D} (tmp a b : ref)
    : M D W unit :=
  ctor_move tmp a ;;
  assign_move a b ;;
  assign_move b tmp ;;
  dtor tmp.

(** ** The effect of an operation, in closed form *)

Section summary.
Context {D W : Type} `{!Deleter D W} `{!Movable D}
  `{!DefaultConstructible D}.
Implicit Types (s : gmap ref (Unique_ptr D)) (this u : ref) (p : pointer)
  (o : op D).

(** The object at [this] with stored pointer [p]. *)
Definition with_pointer this p s : gmap ref (Unique_ptr D) :=
  match s !! this with
  | Some x => <[this := mk p (get_deleter x)]> s
  | None => s
  end.

(** The pointer of [u] moved to [this]; for the deleter [e] of [u],
    [this] has the deleter [dn e] and [u] is left with [dr e]. *)
Definition moved (dn dr : D → D) this u s : gmap ref (Unique_ptr D) :=
  match s !! u with
  | Some y => <[this := mk (get y) (dn (get_deleter y))]>
                (<[u := mk nullptr (dr (get_deleter y))]> s)
  | None => s
  end.

Definition exchanged this u s : gmap ref (Unique_ptr D) :=
  match s !! this, s !! u with
  | Some x, Some y => <[u := x]> (<[this := y]> s)
  | _, _ => s
  end.

(** The live objects after an operation. *)
Definition objs_after o s : gmap ref (Unique_ptr D) :=
  match o with
  | Ctor_default this => <[this := mk nullptr value_init]> s
  | Ctor_ptr this p => <[this := mk p value_init]> s
  | Ctor_ptr_deleter this p d => <[this := mk p d]> s
  | Ctor_move this u => moved id moved_from this u s
  | Ctor_convert conv this u => moved (fst ∘ conv) (snd ∘ conv) this u s
  | Assign_move this u =>
      if decide (this = u) then moved self_moved self_moved this u s
      else moved id moved_from this u s
  | Assign_convert conv this u =>
      if decide (this = u) then moved (snd ∘ conv) (snd ∘ conv) this u s
      else moved (fst ∘ conv) (snd ∘ conv) this u s
  | Dtor this => delete this s
  | Assign_nullptr this | Call_release this => with_pointer this nullptr s
  | Call_reset this p => with_pointer this p s
  | Call_swap this u | Call_swap_free this u => exchanged this u s
  end.

(** The call [reset(p)] makes on the object at [this]. *)
Definition released this p s : list (event D) :=
  match s !! this with
  | Some x =>
      if negb (get x =? nullptr)
      then [Call (get_deleter x) (get x) (with_pointer this p s)]
      else []
  | None => []
  end.

(** The deleter calls an operation makes. *)
Definition events_of o s : list (event D) :=
  match o with
  | Dtor this =>
      match s !! this with
      | Some x =>
          if negb (get x =? nullptr)
          then [Call (get_deleter x) (get x) s]
          else []
      | None => []
      end
  | Assign_move this u | Assign_convert _ this u =>
      if decide (this = u) then []
      else match s !! u with
           | Some y =>
               released this (get y) (<[u := mk nullptr (get_deleter y)]> s)
           | None => []
           end
  | Assign_nullptr this => released this nullptr s
  | Call_reset this p => released this p s
  | _ => []
  end.

(** The world after the deleter calls of a log. *)
Definition replay (l : list (event D)) (w : W) : W :=
  foldl (λ w e, call_operator (ev_deleter e) (ev_objs e) (ev_arg e) w) w l.

(** The objects an operation is applied to. *)
Definition operands o : list ref :=
  match o with
  | Ctor_default this | Ctor_ptr this _ | Ctor_ptr_deleter this _ _
  | Dtor this | Assign_nullptr this | Call_release this | Call_reset this _ =>
      [this]
  | Ctor_move this u | Ctor_convert _ this u
  | Assign_move this u | Assign_convert _ this u
  | Call_swap this u | Call_swap_free this u => [this; u]
  end.

End summary.

(** ** More fixtures *)

(** Two objects that own 5 and 7, each through a deleter that watches its
    own object. *)
Definition two_probes : machine Probe (list (option N)) :=
  Machine (<[2%positive := mk 7 (probe 2)]>
             (<[1%positive := mk 5 (probe 1)]> ∅)) [] [].

(** One object that owns the integer 42 stored at address 5. *)
Definition one_int : machine Default_delete (gmap N (option Z)) :=
  Machine (<[1%positive := mk 5 default_delete]> ∅)
          (<[5 := Some 42%Z]> ∅) [].

(** * Part II: what the program does *)

(** Evaluation of a computation whose object lookups are known. *)
Ltac run :=
  repeat (simpl;
    match goal with
    | H : ?s !! ?i = _ |- context [?s !! ?i] => rewrite H
    | |- context [<[?i := _]> _ !! ?i] => rewrite lookup_insert_eq
    | Hne : ?i ≠ ?j |- context [<[?i := _]> _ !! ?j] =>
        rewrite (lookup_insert_ne _ i j) by done
    | Hne : ?j ≠ ?i |- context [<[?i := _]> _ !! ?j] =>
        rewrite (lookup_insert_ne _ i j) by done
    end).

Ltac unfold_ops :=
  unfold swap_free, swap, swap_first, swap_second, move_deleter,
    assign_first, assign_deleter, construct, bind, ret, fetch, update.

(** Equality of two stores, by cases on the key that is looked up. *)
Ltac store_eq :=
  let k := fresh "k" in
  apply map_eq; intros k; rewrite ?lookup_insert, ?lookup_delete;
  repeat case_decide; simplify_eq; try done.

(** Equality of two stores built from insertions and deletions. *)
Ltac stores_equal :=
  let k := fresh "k" in
  apply map_eq; intros k;
  repeat first [rewrite lookup_insert | rewrite lookup_delete];
  repeat case_decide; simplify_eq; try done; try congruence.

(** Evaluation of a decidable proposition on concrete data. *)
Ltac decide_by_compute := apply (bool_decide_unpack _); vm_compute; exact I.

#[export] Instance unique_ownership_dec {D : Type}
    (s : gmap ref (Unique_ptr D)) : Decision (unique_ownership s).
Proof.
  refine (match decide (map_Forall (λ i x,
            map_Forall (λ j y, get x = get y → get x ≠ nullptr → i = j) s) s)
          with
          | left H => left _
          | right H => right _
          end); unfold unique_ownership, map_Forall in *.
  - intros i j x y ??. by apply H.
  - intros H'. apply H. intros i x ? j y ?. by apply H'.
Defined.

#[export] Instance unowned_elsewhere_dec {D : Type}
    (s : gmap ref (Unique_ptr D)) (this : ref) (p : pointer) :
  Decision (unowned_elsewhere s this p).
Proof.
  refine (match decide (p = nullptr ∨
                        map_Forall (λ j y, j ≠ this → get y ≠ p) s) with
          | left H => left _
          | right H => right _
          end); unfold unowned_elsewhere, map_Forall in *.
  - destruct H as [? | H]; [by left|].
    right. intros j y ??. by apply (H j y).
  - intros [? | H']; apply H; [by left|].
    right. intros j y ??. by apply (H' j y).
Defined.

#[export] Instance owned_allocated_dec {D V : Type}
    (m : machine D (gmap N (option V))) : Decision (owned_allocated m).
Proof.
  refine (match decide (world m !! nullptr = None ∧
                        map_Forall (λ _ x, get x ≠ nullptr →
                                           is_Some (world m !! get x))
                                   (objs m)) with
          | left H => left _
          | right H => right _
          end); unfold owned_allocated, map_Forall in *; exact H.
Defined.

(** ** Equations of the operations *)

Section equations.
Context {D W : Type} `{!Deleter D W} `{!Movable D}.
Implicit Types (m : machine D W) (x y : Unique_ptr D) (this u : ref)
  (p q : pointer) (d : D).

Lemma bind_Some {A B} (c : M D W A) (k : A → M D W B) m a m' :
  c m = Some (a, m') → bind c k m = k a m'.
Proof. unfold bind. by intros ->. Qed.

Lemma machine_eta m : Machine (objs m) (world m) (calls m) = m.
Proof. by destruct m. Qed.

Lemma mk_eta x : mk (get x) (get_deleter x) = x.
Proof. by destruct x as [[]]. Qed.

Lemma get_mk p d : get (mk p d) = p.
Proof. done. Qed.

Lemma get_deleter_mk p d : get_deleter (mk p d) = d.
Proof. done. Qed.

Lemma fetch_eq m this x :
  objs m !! this = Some x → fetch this m = Some (x, m).
Proof. unfold fetch. by intros ->. Qed.

Lemma assign_first_eq m this x p :
  objs m !! this = Some x →
  assign_first this p m =
    Some (tt, Machine (<[this := mk p (get_deleter x)]> (objs m))
                      (world m) (calls m)).
Proof.
  intros Hx. unfold assign_first.
  rewrite (bind_Some _ _ _ _ _ (fetch_eq _ _ _ Hx)).
  unfold update. by rewrite Hx.
Qed.

Lemma assign_deleter_eq m this x d :
  objs m !! this = Some x →
  assign_deleter this d m =
    Some (tt, Machine (<[this := mk (get x) d]> (objs m))
                      (world m) (calls m)).
Proof.
  intros Hx. unfold assign_deleter.
  rewrite (bind_Some _ _ _ _ _ (fetch_eq _ _ _ Hx)).
  unfold update. by rewrite Hx.
Qed.

Lemma release_eq m this x :
  objs m !! this = Some x →
  release this m =
    Some (get x, Machine (<[this := mk nullptr (get_deleter x)]> (objs m))
                         (world m) (calls m)).
Proof.
  intros Hx. unfold release.
  rewrite (bind_Some _ _ _ _ _ (fetch_eq _ _ _ Hx)).
  by rewrite (bind_Some _ _ _ _ _ (assign_first_eq _ _ _ _ Hx)).
Qed.

Lemma reset_eq m this x p :
  objs m !! this = Some x →
  reset this p m = Some (tt, after_reset m this x p).
Proof.
  intros Hx. unfold reset, after_reset.
  rewrite (bind_Some _ _ _ _ _ (fetch_eq _ _ _ Hx)).
  rewrite (bind_Some _ _ _ _ _ (assign_first_eq _ _ _ _ Hx)).
  fold (get x). destruct (negb (get x =? 0)); [|done].
  erewrite bind_Some; last by apply fetch_eq, lookup_insert_eq.
  done.
Qed.

Lemma objs_after_reset m this x p :
  objs (after_reset m this x p) = <[this := mk p (get_deleter x)]> (objs m).
Proof. unfold after_reset. by destruct (negb _). Qed.

Lemma construct_eq m this x :
  objs m !! this = None →
  construct this x m =
    Some (tt, Machine (<[this := x]> (objs m)) (world m) (calls m)).
Proof. unfold construct. by intros ->. Qed.

Lemma dtor_eq m this x :
  objs m !! this = Some x →
  dtor this m = Some (tt, after_dtor m this x).
Proof.
  intros Hx. unfold dtor, after_dtor.
  rewrite (bind_Some _ _ _ _ _ (fetch_eq _ _ _ Hx)).
  destruct (negb (get x =? 0)).
  - unfold bind, invoke, destroy; simpl. by rewrite Hx.
  - unfold bind, ret, destroy; simpl. by rewrite Hx.
Qed.

Lemma objs_after_dtor m this x :
  objs (after_dtor m this x) = delete this (objs m).
Proof. unfold after_dtor. by destruct (negb _). Qed.

Lemma ctor_convert_eq conv m this u y :
  objs m !! u = Some y → objs m !! this = None →
  ctor_convert conv this u m =
    Some (tt, Machine (<[this := mk (get y) (fst (conv (get_deleter y)))]>
                         (<[u := mk nullptr (snd (conv (get_deleter y)))]>
                            (objs m)))
                      (world m) (calls m)).
Proof.
  intros Hy Hn. assert (this ≠ u) by congruence. unfold ctor_convert.
  rewrite (bind_Some _ _ _ _ _ (release_eq _ _ _ Hy)).
  erewrite bind_Some; last by apply fetch_eq, lookup_insert_eq.
  erewrite bind_Some; last first.
  { rewrite construct_eq; [done|]; simpl. by rewrite lookup_insert_ne. }
  erewrite assign_deleter_eq; last first.
  { simpl. by rewrite lookup_insert_ne, lookup_insert_eq. }
  simpl. do 2 f_equal.
  match goal with
  | |- Machine ?s1 _ _ = Machine ?s2 _ _ => enough (s1 = s2) as -> by done
  end.
  stores_equal.
Qed.

Lemma ctor_move_eq m this u y :
  objs m !! u = Some y → objs m !! this = None →
  ctor_move this u m =
    Some (tt, Machine (<[this := mk (get y) (get_deleter y)]>
                         (<[u := mk nullptr (moved_from (get_deleter y))]>
                            (objs m)))
                      (world m) (calls m)).
Proof. apply (ctor_convert_eq (λ e, (e, moved_from e))). Qed.

(** The move assignment of the deleter of [u] to the deleter of [this]:
    two objects, and one object. *)
Lemma move_deleter_eq m this u x y :
  objs m !! this = Some x → objs m !! u = Some y → this ≠ u →
  move_deleter this u m =
    Some (tt, Machine (<[this := mk (get x) (get_deleter y)]>
                         (<[u := mk (get y) (moved_from (get_deleter y))]>
                            (objs m)))
                      (world m) (calls m)).
Proof.
  intros Hx Hy Hne. unfold move_deleter.
  rewrite (bind_Some _ _ _ _ _ (fetch_eq _ _ _ Hy)).
  rewrite decide_False by done.
  rewrite (bind_Some _ _ _ _ _ (assign_deleter_eq _ _ _ _ Hx)).
  erewrite assign_deleter_eq; last first.
  { simpl. by rewrite lookup_insert_ne. }
  simpl. do 2 f_equal.
  match goal with
  | |- Machine ?s1 _ _ = Machine ?s2 _ _ => enough (s1 = s2) as -> by done
  end.
  stores_equal.
Qed.

Lemma move_deleter_self_eq m this x :
  objs m !! this = Some x →
  move_deleter this this m =
    Some (tt, Machine (<[this := mk (get x) (self_moved (get_deleter x))]>
                         (objs m))
                      (world m) (calls m)).
Proof.
  intros Hx. unfold move_deleter.
  rewrite (bind_Some _ _ _ _ _ (fetch_eq _ _ _ Hx)).
  rewrite decide_True by done. by apply assign_deleter_eq.
Qed.

(** [swap]: the two objects exchange their values; when [this] and [u] are
    one object, it keeps its value. *)
Lemma swap_eq m this u x y :
  objs m !! this = Some x → objs m !! u = Some y →
  swap this u m =
    Some (tt, Machine (<[u := x]> (<[this := y]> (objs m)))
                      (world m) (calls m)).
Proof.
  intros Hx Hy. unfold_ops.
  destruct (decide (this = u)) as [->|Hne]; simplify_eq; run.
  - rewrite ?decide_True by done. run.
    do 2 f_equal. destruct x as [[px dx]].
    match goal with
    | |- Machine ?s1 _ _ = Machine ?s2 _ _ => enough (s1 = s2) as -> by done
    end.
    stores_equal.
  - rewrite ?decide_False by done. run.
    do 2 f_equal. destruct x as [[px dx]], y as [[py dy]].
    match goal with
    | |- Machine ?s1 _ _ = Machine ?s2 _ _ => enough (s1 = s2) as -> by done
    end.
    stores_equal.
Qed.

(** The machine after [reset(u.release())]. *)
Lemma reset_release_eq m this u x y :
  objs m !! this = Some x → objs m !! u = Some y →
  (let* p := release u in reset this p) m =
    Some (tt, after_reset
                (Machine (<[u := mk nullptr (get_deleter y)]> (objs m))
                         (world m) (calls m))
                this
                (if decide (this = u) then mk nullptr (get_deleter y) else x)
                (get y)).
Proof.
  intros Hx Hy.
  rewrite (bind_Some _ _ _ _ _ (release_eq _ _ _ Hy)).
  apply reset_eq; simpl. rewrite lookup_insert.
  destruct (decide (u = this)); case_decide; by simplify_eq.
Qed.

Lemma assign_convert_eq conv m this u x y :
  objs m !! this = Some x → objs m !! u = Some y →
  assign_convert conv this u m =
    Some (tt, after_assign m this u x y
                (if decide (this = u) then snd (conv (get_deleter y))
                 else fst (conv (get_deleter y)))
                (snd (conv (get_deleter y)))).
Proof.
  intros Hx Hy. unfold assign_convert, after_assign.
  pose proof (reset_release_eq _ _ _ _ _ Hx Hy) as Hrr.
  unfold bind at 1 in Hrr. unfold bind at 1 2.
  destruct (release u m) as [[p m0]|]; [|done]. rewrite Hrr. clear Hrr.
  set (m1 := Machine _ _ _).
  set (x1 := if decide _ then _ else _).
  set (m2 := after_reset m1 this x1 (get y)).
  assert (objs m2 = <[this := mk (get y) (get_deleter x1)]> (objs m1)) as Hm2
    by apply objs_after_reset.
  destruct (decide (this = u)) as [-> | Hne].
  - assert (objs m2 !! u = Some (mk (get y) (get_deleter x1))) as Hu
      by (rewrite Hm2; apply lookup_insert_eq).
    rewrite (bind_Some _ _ _ _ _ (fetch_eq _ _ _ Hu)).
    rewrite (bind_Some _ _ _ _ _ (assign_deleter_eq _ _ _ _ Hu)).
    erewrite assign_deleter_eq; last by apply lookup_insert_eq.
    subst x1. rewrite !get_mk, !get_deleter_mk. do 2 f_equal.
    match goal with
    | |- Machine ?s1 _ _ = Machine ?s2 _ _ => enough (s1 = s2) as -> by done
    end.
    rewrite Hm2. subst m1; simpl. stores_equal.
  - assert (objs m2 !! u = Some (mk nullptr (get_deleter y))) as Hu
      by (rewrite Hm2; subst m1; simpl;
          by rewrite lookup_insert_ne, lookup_insert_eq).
    assert (objs m2 !! this = Some (mk (get y) (get_deleter x1))) as Ht
      by (rewrite Hm2; apply lookup_insert_eq).
    rewrite (bind_Some _ _ _ _ _ (fetch_eq _ _ _ Hu)).
    rewrite (bind_Some _ _ _ _ _ (assign_deleter_eq _ _ _ _ Ht)).
    erewrite assign_deleter_eq;
      last by simpl; rewrite lookup_insert_ne by done; apply Hu.
    rewrite !get_mk, !get_deleter_mk. do 2 f_equal.
    match goal with
    | |- Machine ?s1 _ _ = Machine ?s2 _ _ => enough (s1 = s2) as -> by done
    end.
    rewrite Hm2. subst m1 x1; simpl. stores_equal.
Qed.

Lemma assign_move_eq m this u x y :
  objs m !! this = Some x → objs m !! u = Some y →
  assign_move this u m =
    Some (tt, after_assign m this u x y
                (if decide (this = u) then self_moved (get_deleter y)
                 else get_deleter y)
                (moved_from (get_deleter y))).
Proof.
  intros Hx Hy. unfold assign_move, after_assign.
  pose proof (reset_release_eq _ _ _ _ _ Hx Hy) as Hrr.
  unfold bind at 1 in Hrr. unfold bind at 1 2.
  destruct (release u m) as [[p m0]|]; [|done]. rewrite Hrr. clear Hrr.
  set (m1 := Machine _ _ _).
  set (x1 := if decide _ then _ else _).
  set (m2 := after_reset m1 this x1 (get y)).
  assert (objs m2 = <[this := mk (get y) (get_deleter x1)]> (objs m1)) as Hm2
    by apply objs_after_reset.
  destruct (decide (this = u)) as [-> | Hne].
  - erewrite move_deleter_self_eq;
      last by rewrite Hm2; apply lookup_insert_eq.
    rewrite get_mk. do 2 f_equal.
    match goal with
    | |- Machine ?s1 _ _ = Machine ?s2 _ _ => enough (s1 = s2) as -> by done
    end.
    rewrite Hm2. subst m1 x1; simpl. stores_equal.
  - erewrite (move_deleter_eq _ this u _ (mk nullptr (get_deleter y)));
      [|by rewrite Hm2; apply lookup_insert_eq
       |by rewrite Hm2; subst m1; simpl;
           rewrite lookup_insert_ne, lookup_insert_eq
       |done].
    rewrite !get_mk, !get_deleter_mk. do 2 f_equal.
    match goal with
    | |- Machine ?s1 _ _ = Machine ?s2 _ _ => enough (s1 = s2) as -> by done
    end.
    rewrite Hm2. subst m1 x1; simpl. stores_equal.
Qed.

Lemma objs_after_assign m this u x y dn dr :
  objs (after_assign m this u x y dn dr) =
    <[this := mk (get y) dn]> (<[u := mk nullptr dr]> (objs m)).
Proof. done. Qed.

End equations.

(** ** Functional behaviour of the operations *)

Section operations.
Context {D W : Type} `{!Deleter D W} `{!Movable D}.
Implicit Types (m : machine D W) (x a b : Unique_ptr D) (this : ref)
  (p q : pointer) (d : D).

(** C5. [release()] returns the value [get()] had at the start of the call
    and leaves [get() == nullptr]; the stored deleter keeps its value and
    is not called, and nothing else changes: the other objects, the world
    of the deleters and the log of calls are as before. *)
Theorem release_frame m this x :
  objs m !! this = Some x →
  ∃ m', release this m = Some (get x, m') ∧
        get <$> objs m' !! this = Some nullptr ∧
        get_deleter <$> objs m' !! this = Some (get_deleter x) ∧
        (∀ j, j ≠ this → objs m' !! j = objs m !! j) ∧
        calls m' = calls m ∧ world m' = world m.
Proof.
  intros Hx. eexists. split; [by apply release_eq|]. simpl.
  rewrite lookup_insert_eq. repeat split.
  intros j Hj. by rewrite lookup_insert_ne.
Qed.

(** C4. [reset(q)] leaves [get() == q].  The deleter is called, once and
    on the previous stored pointer, exactly when that pointer was not
    null.  The call is made after the assignment: the objects the deleter
    is run on, which are the ones the log records for the call, are those
    of the final state, where [get()] of this object is [q]. *)
Theorem reset_semantics m this x q :
  objs m !! this = Some x →
  ∃ m', reset this q m = Some (tt, m') ∧
        objs m' = <[this := mk q (get_deleter x)]> (objs m) ∧
        get <$> objs m' !! this = Some q ∧
        (get x ≠ nullptr →
           calls m' = calls m ++ [Call (get_deleter x) (get x) (objs m')] ∧
           world m' =
             call_operator (get_deleter x) (objs m') (get x) (world m)) ∧
        (get x = nullptr → calls m' = calls m ∧ world m' = world m).
Proof.
  intros Hx. eexists. split; [by apply reset_eq|].
  rewrite objs_after_reset, lookup_insert_eq. unfold after_reset.
  destruct (N.eqb_spec (get x) 0); simpl; done.
Qed.

(** C6. The destructor of an object whose stored pointer is not null calls
    the stored deleter exactly once, on the stored pointer; the destructor
    of an object whose stored pointer is null calls no deleter.  In both
    cases the object is gone afterwards. *)
Theorem destruction_releases_once m this x :
  objs m !! this = Some x →
  ∃ m', dtor this m = Some (tt, m') ∧
        objs m' = delete this (objs m) ∧
        (get x ≠ nullptr →
           calls m' = calls m ++ [Call (get_deleter x) (get x) (objs m)] ∧
           world m' =
             call_operator (get_deleter x) (objs m) (get x) (world m)) ∧
        (get x = nullptr → calls m' = calls m ∧ world m' = world m).
Proof.
  intros Hx. eexists. split; [by apply dtor_eq|].
  unfold after_dtor. destruct (N.eqb_spec (get x) 0); simpl; done.
Qed.

(** C2. Move construction of [B] from [A], and move assignment of [A] into
    an empty [B], for distinct [A] and [B]: afterwards [B.get()] is the
    value [A.get()] had before, [A.get() == nullptr], and the deleter of
    [B] is the one [A] holds.  [A] may own something or nothing. *)
Theorem move_transfer_postconditions m (A B : ref) a :
  objs m !! A = Some a → A ≠ B →
  (objs m !! B = None →
     ∃ m', ctor_move B A m = Some (tt, m') ∧
           get <$> objs m' !! B = Some (get a) ∧
           get <$> objs m' !! A = Some nullptr ∧
           get_deleter <$> objs m' !! B = Some (get_deleter a)) ∧
  (∀ b, objs m !! B = Some b → get b = nullptr →
     ∃ m', assign_move B A m = Some (tt, m') ∧
           get <$> objs m' !! B = Some (get a) ∧
           get <$> objs m' !! A = Some nullptr ∧
           get_deleter <$> objs m' !! B = Some (get_deleter a) ∧
           calls m' = calls m).
Proof.
  intros Ha Hne. split.
  - intros Hb. eexists. split; [by apply ctor_move_eq|]. simpl.
    by rewrite lookup_insert_eq, lookup_insert_ne, lookup_insert_eq.
  - intros b Hb Hnull. eexists. split; [by apply assign_move_eq|].
    rewrite objs_after_assign.
    rewrite lookup_insert_eq, lookup_insert_ne, lookup_insert_eq by done.
    rewrite (decide_False (P := B = A)) by done.
    repeat split. unfold after_assign, after_reset; simpl.
    rewrite decide_False by done. by rewrite Hnull.
Qed.

(** C3. Move assignment of an object from itself, which runs
    [reset(u.release())] and then move-assigns the deleter to itself,
    leaves [get()] as it was and calls no deleter: there is no release,
    so no double release. *)
Theorem self_move_assignment m this x :
  objs m !! this = Some x →
  ∃ m', assign_move this this m = Some (tt, m') ∧
        get <$> objs m' !! this = Some (get x) ∧
        calls m' = calls m ∧ world m' = world m.
Proof.
  intros Hx. eexists. split; [by apply assign_move_eq|].
  rewrite objs_after_assign, lookup_insert_eq.
  unfold after_assign, after_reset. rewrite !decide_True by done. done.
Qed.

(** C8. The member [swap] and the free function [swap]: afterwards [x]
    holds the stored pointer and the deleter that [y] had, and [y] those
    that [x] had, whether the stored pointers are null or not; no deleter
    is called, and the other objects are as before. *)
Theorem exchange_semantics m (x y : ref) a b :
  objs m !! x = Some a → objs m !! y = Some b →
  ∀ f : ref → ref → M D W unit, f = swap ∨ f = swap_free →
  ∃ m', f x y m = Some (tt, m') ∧
        objs m' !! x = Some b ∧ objs m' !! y = Some a ∧
        (∀ j, j ≠ x → j ≠ y → objs m' !! j = objs m !! j) ∧
        calls m' = calls m ∧ world m' = world m.
Proof.
  intros Ha Hb f Hf.
  assert (f x y m = swap x y m) as -> by (by destruct Hf as [-> | ->]).
  eexists. split; [by apply swap_eq|]. simpl. repeat split.
  - rewrite lookup_insert. case_decide; simplify_eq; [done|].
    by rewrite lookup_insert_eq.
  - by rewrite lookup_insert_eq.
  - intros j ??. by rewrite !lookup_insert_ne.
Qed.

(** C10. [x.reset(x.release())] restores [x]: the machine is left as it
    was, so [get()] and the deleter are unchanged and no deleter is
    called. *)
Theorem reset_release_roundtrip m this x :
  objs m !! this = Some x →
  ∃ m', (let* p := release this in reset this p) m = Some (tt, m') ∧
        objs m' !! this = Some x ∧
        calls m' = calls m ∧ world m' = world m ∧ m' = m.
Proof.
  intros Hx. eexists. split.
  { rewrite (bind_Some _ _ _ _ _ (release_eq _ _ _ Hx)).
    apply reset_eq; simpl. apply lookup_insert_eq. }
  unfold after_reset; simpl. rewrite get_deleter_mk.
  assert (<[this:=mk (get x) (get_deleter x)]>
            (<[this:=mk 0 (get_deleter x)]> (objs m)) = objs m) as ->.
  { rewrite mk_eta. store_eq. }
  rewrite Hx. repeat split. apply machine_eta.
Qed.

End operations.

(** *** The theorems at concrete machines *)

Lemma release_frame_witness :
  objs two_owners !! 1%positive = Some (mk 5 default_delete) ∧
  ∃ m', release 1 two_owners = Some (5, m') ∧
        get <$> objs m' !! 1%positive = Some nullptr ∧
        get_deleter <$> objs m' !! 1%positive = Some default_delete ∧
        (∀ j, j ≠ 1%positive → objs m' !! j = objs two_owners !! j) ∧
        calls m' = [] ∧ world m' = {[ 5; 7 ]}.
Proof.
  split; [reflexivity|].
  exact (release_frame two_owners 1 (mk 5 default_delete) eq_refl).
Defined.

Lemma reset_semantics_witness :
  objs watched !! 1%positive = Some (mk 5 (probe 1)) ∧
  ∃ m', reset 1 9 watched = Some (tt, m') ∧
        objs m' = <[1%positive := mk 9 (probe 1)]> (objs watched) ∧
        get <$> objs m' !! 1%positive = Some 9 ∧
        (5 ≠ nullptr →
           calls m' = [Call (probe 1) 5 (objs m')] ∧
           world m' = [get <$> objs m' !! 1%positive]) ∧
        (5 = nullptr → calls m' = [] ∧ world m' = []).
Proof.
  split; [reflexivity|].
  exact (reset_semantics watched 1 (mk 5 (probe 1)) 9 eq_refl).
Defined.

(** The deleter of [watched] reads [get()] of its own object while it is
    called by [reset(9)]: it reads 9. *)
Example reset_probe_reads_new_pointer :
  ∃ m', reset 1 9 watched = Some (tt, m') ∧ world m' = [Some 9] ∧
        ev_arg <$> calls m' = [5].
Proof. eexists. split; [vm_compute; reflexivity | split; reflexivity]. Qed.

Lemma destruction_releases_once_witness :
  objs two_owners !! 2%positive = Some (mk 7 default_delete) ∧
  ∃ m', dtor 2 two_owners = Some (tt, m') ∧
        objs m' = delete 2%positive (objs two_owners) ∧
        (7 ≠ nullptr →
           calls m' = [Call default_delete 7 (objs two_owners)] ∧
           world m' = {[ 5; 7 ]} ∖ {[ 7 ]}) ∧
        (7 = nullptr → calls m' = [] ∧ world m' = {[ 5; 7 ]}).
Proof.
  split; [reflexivity|].
  exact (destruction_releases_once two_owners 2 (mk 7 default_delete)
           eq_refl).
Defined.

(** The destructor of an object that owns nothing calls no deleter. *)
Example destruction_of_empty :
  ∃ m', dtor 3 two_owners_one_empty = Some (tt, m') ∧ calls m' = [] ∧
        objs m' = objs two_owners.
Proof. eexists. split; [vm_compute; reflexivity | split; reflexivity]. Qed.

Lemma move_transfer_postconditions_witness :
  (objs two_owners_one_empty !! 1%positive = Some (mk 5 default_delete) ∧
   1%positive ≠ 3%positive) ∧
  (objs two_owners_one_empty !! 4%positive = None ∧
   ∃ m', ctor_move 4 1 two_owners_one_empty = Some (tt, m') ∧
         get <$> objs m' !! 4%positive = Some 5 ∧
         get <$> objs m' !! 1%positive = Some nullptr ∧
         get_deleter <$> objs m' !! 4%positive = Some default_delete) ∧
  (objs two_owners_one_empty !! 3%positive = Some (mk nullptr default_delete) ∧
   ∃ m', assign_move 3 1 two_owners_one_empty = Some (tt, m') ∧
         get <$> objs m' !! 3%positive = Some 5 ∧
         get <$> objs m' !! 1%positive = Some nullptr ∧
         get_deleter <$> objs m' !! 3%positive = Some default_delete ∧
         calls m' = []).
Proof.
  split; [split; [reflexivity | discriminate]|].
  split; (split; [reflexivity|]).
  - assert (1 ≠ 4)%positive as Hne by discriminate.
    exact (proj1 (move_transfer_postconditions two_owners_one_empty 1 4
                    (mk 5 default_delete) eq_refl Hne) eq_refl).
  - assert (1 ≠ 3)%positive as Hne by discriminate.
    exact (proj2 (move_transfer_postconditions two_owners_one_empty 1 3
                    (mk 5 default_delete) eq_refl Hne)
                 (mk nullptr default_delete) eq_refl eq_refl).
Defined.

Lemma self_move_assignment_witness :
  objs two_labelled !! 1%positive = Some (mk 5 (labelled [1; 2])) ∧
  ∃ m', assign_move 1 1 two_labelled = Some (tt, m') ∧
        get <$> objs m' !! 1%positive = Some 5 ∧
        calls m' = [] ∧ world m' = [].
Proof.
  split; [reflexivity|].
  exact (self_move_assignment two_labelled 1 (mk 5 (labelled [1; 2]))
           eq_refl).
Defined.

(** The same self-move-assignment, run: the pointer stays and no deleter is
    called, while the deleter, which is moved to itself, is left without
    its labels. *)
Example self_move_assignment_moves_deleter :
  ∃ m', assign_move 1 1 two_labelled = Some (tt, m') ∧
        objs m' !! 1%positive = Some (mk 5 (labelled [])) ∧
        calls m' = [].
Proof. eexists. split; [vm_compute; reflexivity | split; reflexivity]. Qed.

(** A move construction leaves the source with a moved-from deleter. *)
Example move_construction_moves_deleter :
  ∃ m', ctor_move 3 1 two_labelled = Some (tt, m') ∧
        objs m' !! 3%positive = Some (mk 5 (labelled [1; 2])) ∧
        objs m' !! 1%positive = Some (mk nullptr (labelled [])).
Proof. eexists. split; [vm_compute; reflexivity | split; reflexivity]. Qed.

Lemma exchange_semantics_witness :
  (objs two_owners_one_empty !! 1%positive = Some (mk 5 default_delete) ∧
   objs two_owners_one_empty !! 3%positive = Some (mk nullptr default_delete) ∧
   (@swap_free Default_delete (gset N) _ = swap ∨
    @swap_free Default_delete (gset N) _ = swap_free)) ∧
  ∃ m', swap_free 1 3 two_owners_one_empty = Some (tt, m') ∧
        objs m' !! 1%positive = Some (mk nullptr default_delete) ∧
        objs m' !! 3%positive = Some (mk 5 default_delete) ∧
        (∀ j, j ≠ 1%positive → j ≠ 3%positive →
              objs m' !! j = objs two_owners_one_empty !! j) ∧
        calls m' = [] ∧ world m' = {[ 5; 7 ]}.
Proof.
  split; [split; [reflexivity | split; [reflexivity | by right]]|].
  exact (exchange_semantics two_owners_one_empty 1 3
           (mk 5 default_delete) (mk nullptr default_delete)
           eq_refl eq_refl swap_free (or_intror eq_refl)).
Defined.

Lemma reset_release_roundtrip_witness :
  objs two_owners !! 2%positive = Some (mk 7 default_delete) ∧
  ∃ m', (let* p := release 2 in reset 2 p) two_owners = Some (tt, m') ∧
        objs m' !! 2%positive = Some (mk 7 default_delete) ∧
        calls m' = [] ∧ world m' = {[ 5; 7 ]} ∧ m' = two_owners.
Proof.
  split; [reflexivity|].
  exact (reset_release_roundtrip two_owners 2 (mk 7 default_delete) eq_refl).
Defined.

(** ** Comparison *)

(** C9. [x == y] holds exactly when [x.get() == y.get()], for objects of
    any two instantiations and whatever deleters they hold; [x == nullptr]
    holds exactly when [x.get() == nullptr], that is, when the conversion
    of [x] to [bool] gives [false]. *)
Theorem equality_is_address_equality {D1 D2 : Type}
    (x : Unique_ptr D1) (y : Unique_ptr D2) :
  (operator_eq x y = true ↔ get x = get y) ∧
  (∀ (E1 E2 : Type) (d1 : E1) (d2 : E2),
     operator_eq (mk (get x) d1) (mk (get y) d2) = operator_eq x y) ∧
  (operator_eq_nullptr x = true ↔ get x = nullptr) ∧
  (operator_eq_nullptr x = true ↔ operator_bool x = false).
Proof.
  unfold operator_eq_nullptr, operator_bool, operator_eq.
  split; [apply N.eqb_eq|]. split; [done|].
  rewrite negb_involutive, negb_false_iff. split; [apply N.eqb_eq|done].
Qed.

(** Objects of two instantiations that hold the same address are equal;
    an object that owns something differs from [nullptr]. *)
Example equality_across_instantiations :
  operator_eq (mk 5 default_delete) (mk 5 (probe 1)) = true ∧
  operator_eq (mk 5 default_delete) (mk 7 default_delete) = false ∧
  operator_eq_nullptr (mk 5 (probe 1)) = false ∧
  operator_eq_nullptr (mk nullptr default_delete) = true.
Proof. repeat split. Qed.

(** ** Unique ownership *)

Section ownership_lemmas.
Context {D : Type}.
Implicit Types (s : gmap ref (Unique_ptr D)) (x y : Unique_ptr D)
  (this u i j : ref) (p q : pointer) (d : D).

Lemma unique_insert s i x :
  unique_ownership s → unowned_elsewhere s i (get x) →
  unique_ownership (<[i := x]> s).
Proof.
  intros Hs Hx j k a b. rewrite !lookup_insert.
  repeat case_decide; simplify_eq; try done.
  - intros [= <-] Hb Heq Hnn. destruct Hx as [? | Hx]; [done|].
    by destruct (Hx k b).
  - intros Ha [= <-] Heq Hnn. destruct Hx as [? | Hx]; [congruence|].
    by destruct (Hx j a).
  - apply Hs.
Qed.

Lemma unique_delete s i :
  unique_ownership s → unique_ownership (delete i s).
Proof.
  intros Hs j k a b. rewrite !lookup_delete.
  repeat case_decide; try done. apply Hs.
Qed.

(** What an object holds is held by no other object. *)
Lemma unowned_elsewhere_own s i x :
  unique_ownership s → s !! i = Some x → unowned_elsewhere s i (get x).
Proof.
  intros Hs Hx. destruct (decide (get x = 0)) as [|Hnn]; [by left|].
  right. intros j y Hj Hy Heq. apply Hj, (Hs j i y x); congruence.
Qed.

(** A move from [u] to a distinct object [this]. *)
Lemma unique_move s this u y d d' :
  unique_ownership s → s !! u = Some y → this ≠ u →
  unique_ownership (<[this := mk (get y) d]> (<[u := mk nullptr d']> s)).
Proof.
  intros Hs Hy Hne. apply unique_insert.
  - apply unique_insert; [done | by left].
  - destruct (decide (get y = 0)) as [|Hnn]; [by left|].
    right. intros j z Hj Hz Heq.
    destruct (decide (j = u)) as [-> | Hju].
    + rewrite lookup_insert_eq in Hz. by simplify_eq.
    + rewrite lookup_insert_ne in Hz by done.
      rewrite get_mk in Heq. apply Hju, (Hs j u z y); congruence.
Qed.

(** A move assignment, from [u] to [this], which may be [u] itself. *)
Lemma unique_assign s this u x y d d' :
  unique_ownership s → s !! this = Some x → s !! u = Some y →
  unique_ownership (<[this := mk (get y) d]> (<[u := mk nullptr d']> s)).
Proof.
  intros Hs Hx Hy. destruct (decide (this = u)) as [-> | Hne].
  - rewrite insert_insert_eq. apply unique_insert; [done|].
    by apply (unowned_elsewhere_own s u y).
  - by apply unique_move.
Qed.

(** After an exchange the store is the old one read through the
    transposition of the two keys. *)
Lemma lookup_exchanged s i j x y k :
  s !! i = Some x → s !! j = Some y →
  <[j := x]> (<[i := y]> s) !! k =
    s !! (if decide (k = j) then i else if decide (k = i) then j else k).
Proof.
  intros Hx Hy. rewrite !lookup_insert.
  repeat case_decide; simplify_eq; done.
Qed.

Lemma unique_swap s i j x y :
  unique_ownership s → s !! i = Some x → s !! j = Some y →
  unique_ownership (<[j := x]> (<[i := y]> s)).
Proof.
  intros Hs Hx Hy k l a b.
  rewrite !(lookup_exchanged s i j x y) by done.
  intros Ha Hb Heq Hnn. pose proof (Hs _ _ _ _ Ha Hb Heq Hnn) as Hkl.
  repeat case_decide; congruence.
Qed.

End ownership_lemmas.

Section ownership_theorem.
Context {D W : Type} `{!Deleter D W} `{!Movable D}
  `{!DefaultConstructible D}.
Implicit Types (m : machine D W) (o : op D).

(** C1, as the code has it.  Every public operation, applied to live
    objects, preserves that no two live objects hold the same non-null
    stored pointer, provided that a pointer the operation takes from its
    caller ([reset(p)], construction from [p]) is null or is held by no
    other live object.  A move between two distinct objects (move
    construction, converting move construction, move assignment,
    converting move assignment) leaves the stored pointer of the source
    null.  Copy construction and copy assignment are not among the
    operations. *)
Theorem unique_ownership_preserved o m :
  unique_ownership (objs m) → valid o (objs m) →
  (∀ this p, adopted o = Some (this, p) →
             unowned_elsewhere (objs m) this p) →
  ∃ m', exec o m = Some (tt, m') ∧
        unique_ownership (objs m') ∧
        (∀ this u, transfer o = Some (this, u) → this ≠ u →
                   get <$> objs m' !! u = Some nullptr).
Proof.
  intros Hs Hv Ha.
  destruct o as [this | this p | this p d | this u | conv this u | this
                | this u | conv this u | this | this | this p | this u
                | this u]; simpl in Hv.
  - eexists. split; [by apply construct_eq|]. simpl.
    split; [|done]. apply unique_insert; [done | by left].
  - eexists. split; [by apply construct_eq|]. simpl.
    split; [|done]. apply unique_insert; [done | by apply Ha].
  - eexists. split; [by apply construct_eq|]. simpl.
    split; [|done]. apply unique_insert; [done | by apply Ha].
  - destruct Hv as [Hn [y Hy]]. assert (this ≠ u) by congruence.
    eexists. split; [by apply ctor_move_eq|]. simpl.
    split; [by apply unique_move|].
    intros ?? [= <- <-] _.
    by rewrite lookup_insert_ne, lookup_insert_eq.
  - destruct Hv as [Hn [y Hy]]. assert (this ≠ u) by congruence.
    eexists. split; [by apply ctor_convert_eq|]. simpl.
    split; [by apply unique_move|].
    intros ?? [= <- <-] _.
    by rewrite lookup_insert_ne, lookup_insert_eq.
  - destruct Hv as [x Hx].
    eexists. split; [by apply dtor_eq|]. rewrite objs_after_dtor.
    split; [by apply unique_delete | done].
  - destruct Hv as [[x Hx] [y Hy]].
    eexists. split; [by apply assign_move_eq|]. rewrite objs_after_assign.
    split; [by apply (unique_assign _ _ _ x)|].
    intros ?? [= <- <-] Hne.
    by rewrite lookup_insert_ne, lookup_insert_eq.
  - destruct Hv as [[x Hx] [y Hy]].
    eexists. split; [by apply assign_convert_eq|]. rewrite objs_after_assign.
    split; [by apply (unique_assign _ _ _ x)|].
    intros ?? [= <- <-] Hne.
    by rewrite lookup_insert_ne, lookup_insert_eq.
  - destruct Hv as [x Hx].
    eexists. split; [by apply reset_eq|]. rewrite objs_after_reset.
    split; [|done]. apply unique_insert; [done | by left].
  - destruct Hv as [x Hx].
    eexists. split.
    { simpl. by rewrite (bind_Some _ _ _ _ _ (release_eq _ _ _ Hx)). }
    simpl. split; [|done]. apply unique_insert; [done | by left].
  - destruct Hv as [x Hx].
    eexists. split; [by apply reset_eq|]. rewrite objs_after_reset.
    split; [|done]. apply unique_insert; [done | by apply Ha].
  - destruct Hv as [[x Hx] [y Hy]].
    eexists. split; [by apply swap_eq|]. simpl.
    split; [by apply unique_swap | done].
  - destruct Hv as [[x Hx] [y Hy]].
    eexists. split; [by apply swap_eq|]. simpl.
    split; [by apply unique_swap | done].
Qed.

End ownership_theorem.

(** The theorem at [two_owners]: the object at 2 is move-assigned from the
    object at 1, and the object at 1 is reset to an address no object
    holds. *)
Lemma unique_ownership_preserved_witness :
  (unique_ownership (objs two_owners) ∧
   valid (Assign_move 2 1) (objs two_owners) ∧
   valid (Call_reset 1 9) (objs two_owners) ∧
   unowned_elsewhere (objs two_owners) 1 9) ∧
  (∃ m', exec (Assign_move 2 1) two_owners = Some (tt, m') ∧
         unique_ownership (objs m') ∧
         (∀ this u, transfer (Assign_move (D:=Default_delete) 2 1)
                      = Some (this, u) →
                    this ≠ u → get <$> objs m' !! u = Some nullptr)) ∧
  (∃ m', exec (Call_reset 1 9) two_owners = Some (tt, m') ∧
         unique_ownership (objs m') ∧
         (∀ this u, transfer (Call_reset (D:=Default_delete) 1 9)
                      = Some (this, u) →
                    this ≠ u → get <$> objs m' !! u = Some nullptr)).
Proof.
  assert (unique_ownership (objs two_owners)) as Hu by decide_by_compute.
  assert (unowned_elsewhere (objs two_owners) 1 9) as Hf by decide_by_compute.
  assert (valid (Assign_move 2 1) (objs two_owners)) as Hv1
    by (split; eexists; reflexivity).
  assert (valid (Call_reset 1 9) (objs two_owners)) as Hv2
    by (eexists; reflexivity).
  split; [done|]. split.
  - apply (unique_ownership_preserved (Assign_move 2 1) two_owners Hu Hv1).
    intros this p Hadopt. discriminate Hadopt.
  - apply (unique_ownership_preserved (Call_reset 1 9) two_owners Hu Hv2).
    intros this p Hadopt. injection Hadopt as <- <-. exact Hf.
Defined.

(** C1, as stated, fails in two places.  In [two_owners] every object
    holds a non-null pointer and no two hold the same one; after
    [reset(7)] on the object at 1 both objects hold 7.  And after the
    move assignment of the object at 1 from itself, the source of the
    move still holds 5. *)
Lemma unique_ownership_counterexample :
  (unique_ownership (objs two_owners) ∧
   map_Forall (λ _ x, get x ≠ nullptr) (objs two_owners)) ∧
  (valid (Call_reset 1 7) (objs two_owners) ∧
   ∃ m', exec (Call_reset 1 7) two_owners = Some (tt, m') ∧
         ¬ unique_ownership (objs m')) ∧
  (valid (Assign_move 1 1) (objs two_owners) ∧
   transfer (Assign_move (D:=Default_delete) 1 1) = Some (1, 1)%positive ∧
   ∃ m', exec (Assign_move 1 1) two_owners = Some (tt, m') ∧
         get <$> objs m' !! 1%positive = Some 5).
Proof.
  split; [split; decide_by_compute|]. split.
  - split; [eexists; reflexivity|].
    eexists. split; [vm_compute; reflexivity|]. decide_by_compute.
  - split; [split; eexists; reflexivity|]. split; [reflexivity|].
    eexists. split; [vm_compute; reflexivity|]. reflexivity.
Qed.

(** ** The repository's tests, run on the machine

    Each program gives the values its [REQUIRE]s expect; the deleter is
    called on the addresses listed, in that order, and what remains
    allocated is the last component. *)

Example test_ctor5_passes :
  outcome (test_ctor5 two_allocations) = Some ((5, nullptr), [], {[ 5; 7 ]}).
Proof. vm_compute. reflexivity. Qed.

Example test_assignment_passes :
  outcome (test_assignment two_allocations)
  = Some ((nullptr, 7, nullptr), [5; 7], ∅).
Proof. vm_compute. reflexivity. Qed.

Example test_modifiers1_passes :
  outcome (test_modifiers1 two_allocations)
  = Some ((5, nullptr), [], {[ 5; 7 ]}).
Proof. vm_compute. reflexivity. Qed.

Example test_modifiers2_passes :
  outcome (test_modifiers2 two_allocations)
  = Some ((7, nullptr), [5; 7], ∅).
Proof. vm_compute. reflexivity. Qed.

Example test_modifiers3_passes :
  outcome (test_modifiers3 two_allocations) = Some ((7, 5), [], {[ 5; 7 ]}).
Proof. vm_compute. reflexivity. Qed.

(** Move, then the end of the scope: the resource is released once, by the
    object it was moved to. *)
Example test_ctor5_scope :
  outcome ((test_ctor5 ;; end_of_scope) two_allocations)
  = Some (tt, [5], {[ 7 ]}).
Proof. vm_compute. reflexivity. Qed.

(** * Part III: further properties of the code *)

(** ** Every operation as a store update and a list of deleter calls *)

Section summary_lemmas.
Context {D W : Type} `{!Deleter D W} `{!Movable D}
  `{!DefaultConstructible D}.
Implicit Types (m : machine D W) (s : gmap ref (Unique_ptr D))
  (x y : Unique_ptr D) (this u i j : ref) (p q : pointer) (o : op D).

Lemma released_eq m this x p :
  objs m !! this = Some x →
  after_reset m this x p =
    Machine (with_pointer this p (objs m))
            (replay (released this p (objs m)) (world m))
            (calls m ++ released this p (objs m)).
Proof.
  intros Hx. unfold after_reset, released, with_pointer. rewrite Hx.
  destruct (negb (get x =? 0)); simpl; [done|]. by rewrite app_nil_r.
Qed.

Lemma exec_summary o m :
  valid o (objs m) →
  exec o m =
    Some (tt, Machine (objs_after o (objs m))
                      (replay (events_of o (objs m)) (world m))
                      (calls m ++ events_of o (objs m))).
Proof.
  intros Hv.
  destruct o as [this | this p | this p d | this u | conv this u | this
                | this u | conv this u | this | this | this p | this u
                | this u]; simpl in Hv; simpl.
  - rewrite app_nil_r. by apply construct_eq.
  - rewrite app_nil_r. by apply construct_eq.
  - rewrite app_nil_r. by apply construct_eq.
  - destruct Hv as [Hn [y Hy]]. rewrite app_nil_r. unfold moved.
    rewrite Hy. by apply ctor_move_eq.
  - destruct Hv as [Hn [y Hy]]. rewrite app_nil_r. unfold moved.
    rewrite Hy. by apply ctor_convert_eq.
  - destruct Hv as [x Hx]. rewrite (dtor_eq _ _ _ Hx). unfold after_dtor.
    rewrite Hx. destruct (negb (get x =? 0)); simpl; [done|].
    by rewrite app_nil_r.
  - destruct Hv as [[x Hx] [y Hy]].
    rewrite (assign_move_eq _ _ _ _ _ Hx Hy). unfold after_assign.
    destruct (decide (this = u)) as [-> | Hne]; unfold moved; rewrite Hy.
    + unfold after_reset; simpl. by rewrite !insert_insert_eq, app_nil_r.
    + rewrite released_eq by (simpl; by rewrite lookup_insert_ne).
      by simpl.
  - destruct Hv as [[x Hx] [y Hy]].
    rewrite (assign_convert_eq _ _ _ _ _ _ Hx Hy). unfold after_assign.
    destruct (decide (this = u)) as [-> | Hne]; unfold moved; rewrite Hy.
    + unfold after_reset; simpl. by rewrite !insert_insert_eq, app_nil_r.
    + rewrite released_eq by (simpl; by rewrite lookup_insert_ne).
      by simpl.
  - destruct Hv as [x Hx]. unfold assign_nullptr.
    rewrite (reset_eq _ _ _ _ Hx). by rewrite (released_eq _ _ _ _ Hx).
  - destruct Hv as [x Hx].
    rewrite (bind_Some _ _ _ _ _ (release_eq _ _ _ Hx)).
    unfold ret, with_pointer. by rewrite Hx, app_nil_r.
  - destruct Hv as [x Hx].
    rewrite (reset_eq _ _ _ _ Hx). by rewrite (released_eq _ _ _ _ Hx).
  - destruct Hv as [[x Hx] [y Hy]]. rewrite (swap_eq _ _ _ _ _ Hx Hy).
    unfold exchanged. by rewrite Hx, Hy, app_nil_r.
  - destruct Hv as [[x Hx] [y Hy]]. unfold swap_free.
    rewrite (swap_eq _ _ _ _ _ Hx Hy).
    unfold exchanged. by rewrite Hx, Hy, app_nil_r.
Qed.

End summary_lemmas.

(** ** Lifetimes: construction, destruction, release *)

Section lifetimes.
Context {D W : Type} `{!Deleter D W} `{!Movable D}
  `{!DefaultConstructible D}.
Implicit Types (m : machine D W) (x y : Unique_ptr D) (this u : ref)
  (p q : pointer) (d : D).

(** X1. An object that is constructed (by the default constructor, from a
    pointer, or from a pointer and a deleter) and then destroyed: the
    constructor adopts the pointer as it is and calls no deleter; the
    destructor calls the deleter the object was given exactly once on the
    pointer it was given, or not at all when that pointer is null; and the
    other objects are as if nothing had happened. *)
Theorem construct_destroy_scope m this p d :
  objs m !! this = None →
  ∀ (ctor : M D W unit) x0,
    (ctor = ctor_default this ∧ x0 = mk nullptr value_init) ∨
    (ctor = ctor_ptr this p ∧ x0 = mk p value_init) ∨
    (ctor = ctor_ptr_deleter this p d ∧ x0 = mk p d) →
    ∃ m1 m2,
      ctor m = Some (tt, m1) ∧
      objs m1 = <[this := x0]> (objs m) ∧
      calls m1 = calls m ∧ world m1 = world m ∧
      dtor this m1 = Some (tt, m2) ∧
      objs m2 = objs m ∧
      calls m2 = calls m ++
        (if decide (get x0 = nullptr) then []
         else [Call (get_deleter x0) (get x0) (objs m1)]).
Proof.
  intros Hn ctor x0 Hc.
  assert (ctor m = construct this x0 m) as ->
    by (by destruct Hc as [[-> ->] | [[-> ->] | [-> ->]]]).
  rewrite (construct_eq _ _ _ Hn).
  set (m1 := Machine (<[this := x0]> (objs m)) (world m) (calls m)).
  exists m1, (after_dtor m1 this x0).
  do 4 (split; [done|]).
  split; [apply dtor_eq, lookup_insert_eq|]. split.
  - rewrite objs_after_dtor; simpl. by apply delete_insert_id.
  - unfold after_dtor; simpl. case_decide as Hx0.
    + by rewrite Hx0, app_nil_r.
    + by rewrite (proj2 (N.eqb_neq _ _) Hx0).
Qed.

(** X6. [release()] followed by the destructor: the pointer the object
    held is returned, no deleter is called, and the world is as before;
    the resource outlives the object. *)
Theorem release_then_destroy m this x :
  objs m !! this = Some x →
  (let* p := release this in dtor this ;; ret p) m =
    Some (get x, Machine (delete this (objs m)) (world m) (calls m)).
Proof.
  intros Hx. rewrite (bind_Some _ _ _ _ _ (release_eq _ _ _ Hx)).
  erewrite bind_Some; last first.
  { apply dtor_eq; simpl. apply lookup_insert_eq. }
  unfold after_dtor, ret; simpl. by rewrite delete_insert_eq.
Qed.

End lifetimes.

(** ** Moves and assignments *)

Section moves.
Context {D W : Type} `{!Deleter D W} `{!Movable D}.
Implicit Types (m : machine D W) (x y : Unique_ptr D) (this u : ref)
  (p q : pointer) (d : D).

(** X2. The converting move constructor: the new object holds the pointer
    the source held and the deleter that is constructed from the source's
    deleter; the source holds null; no deleter is called, and every other
    object holds the pointer it held. *)
Theorem converting_move_construction (conv : D → D * D) m this u y :
  objs m !! u = Some y → objs m !! this = None →
  ∃ m', ctor_convert conv this u m = Some (tt, m') ∧
        objs m' !! this = Some (mk (get y) (fst (conv (get_deleter y)))) ∧
        get <$> objs m' !! u = Some nullptr ∧
        (∀ j, j ≠ this → j ≠ u → get <$> objs m' !! j = get <$> objs m !! j) ∧
        calls m' = calls m ∧ world m' = world m.
Proof.
  intros Hy Hn. assert (this ≠ u) by congruence.
  eexists. split; [by apply ctor_convert_eq|]. simpl.
  rewrite lookup_insert_eq, lookup_insert_ne, lookup_insert_eq by done.
  do 2 (split; [done|]). split; [|done].
  intros j ??. by rewrite !lookup_insert_ne.
Qed.

(** X3. Move assignment into an object that owns something, from another
    object: the resource the destination owned is released exactly once,
    by the deleter the destination had before the assignment, and at the
    time of that call the destination already holds the new pointer and
    the source already holds null, while the deleter has not been assigned
    yet.  Afterwards the destination holds the pointer and the deleter of
    the source, and the source holds null. *)
Theorem move_assignment_releases_old m this u x y :
  objs m !! this = Some x → objs m !! u = Some y → this ≠ u →
  get x ≠ nullptr →
  ∃ m' e, assign_move this u m = Some (tt, m') ∧
          calls m' = calls m ++ [e] ∧
          ev_deleter e = get_deleter x ∧ ev_arg e = get x ∧
          ev_objs e !! this = Some (mk (get y) (get_deleter x)) ∧
          ev_objs e !! u = Some (mk nullptr (get_deleter y)) ∧
          world m' = call_operator (get_deleter x) (ev_objs e) (get x)
                                   (world m) ∧
          objs m' !! this = Some (mk (get y) (get_deleter y)) ∧
          get <$> objs m' !! u = Some nullptr.
Proof.
  intros Hx Hy Hne Hnn. eexists _, _.
  split; [by apply assign_move_eq|].
  rewrite objs_after_assign. unfold after_assign, after_reset.
  rewrite !decide_False by done. rewrite (proj2 (N.eqb_neq _ _) Hnn). simpl.
  split; [reflexivity|]. simpl.
  rewrite !lookup_insert_eq, !lookup_insert_ne, !lookup_insert_eq by done.
  do 6 (split; [done|]).
  by rewrite lookup_insert_ne, lookup_insert_eq.
Qed.

(** X4. The converting move assignment, between two objects: the
    destination holds the pointer the source held and the deleter that the
    assignment from the source's deleter gives it, the source holds null,
    and every other object holds the pointer it held.  A deleter is called
    exactly when the destination owned something: once, the destination's
    previous deleter on its previous pointer. *)
Theorem converting_move_assignment (conv : D → D * D) m this u x y :
  objs m !! this = Some x → objs m !! u = Some y → this ≠ u →
  ∃ m', assign_convert conv this u m = Some (tt, m') ∧
        objs m' !! this = Some (mk (get y) (fst (conv (get_deleter y)))) ∧
        get <$> objs m' !! u = Some nullptr ∧
        (∀ j, j ≠ this → j ≠ u → get <$> objs m' !! j = get <$> objs m !! j) ∧
        (get x = nullptr → calls m' = calls m ∧ world m' = world m) ∧
        (get x ≠ nullptr →
           ∃ e, calls m' = calls m ++ [e] ∧
                ev_deleter e = get_deleter x ∧ ev_arg e = get x).
Proof.
  intros Hx Hy Hne. eexists.
  split; [by apply assign_convert_eq|].
  rewrite objs_after_assign. rewrite !decide_False by done.
  rewrite lookup_insert_eq, lookup_insert_ne, lookup_insert_eq by done.
  do 2 (split; [done|]). split.
  { intros j ??. by rewrite !lookup_insert_ne. }
  unfold after_assign, after_reset. rewrite decide_False by done.
  destruct (N.eqb_spec (get x) 0) as [Hz | Hz]; simpl; split; try done.
  intros _. by eexists.
Qed.

(** X5. Assignment of [nullptr] is [reset()]: the object holds null and
    keeps its deleter, and what it owned is released exactly as by
    [reset(nullptr)].  Assigning [nullptr] again changes nothing. *)
Theorem null_assignment m this x :
  objs m !! this = Some x →
  ∃ m', assign_nullptr this m = Some (tt, m') ∧
        assign_nullptr this m = reset this nullptr m ∧
        objs m' !! this = Some (mk nullptr (get_deleter x)) ∧
        (get x = nullptr → calls m' = calls m ∧ world m' = world m) ∧
        (get x ≠ nullptr →
           calls m' = calls m ++ [Call (get_deleter x) (get x) (objs m')]) ∧
        assign_nullptr this m' = Some (tt, m').
Proof.
  intros Hx. unfold assign_nullptr. eexists.
  split; [by apply reset_eq|]. split; [done|].
  rewrite objs_after_reset, lookup_insert_eq. split; [done|].
  split; [|split].
  - unfold after_reset. by intros ->.
  - unfold after_reset. intros Hnn. by rewrite (proj2 (N.eqb_neq _ _) Hnn).
  - set (m1 := after_reset m this x 0).
    assert (objs m1 !! this = Some (mk 0 (get_deleter x))) as H1
      by (subst m1; rewrite objs_after_reset; apply lookup_insert_eq).
    rewrite (reset_eq _ _ _ _ H1). do 2 f_equal.
    unfold after_reset at 1; simpl. rewrite get_deleter_mk.
    rewrite insert_id by done. apply machine_eta.
Qed.

(** X8. An object is moved to a new one and both are destroyed, the new
    one first: the resource is released exactly once, by the deleter it
    was owned with, while the moved-from object holds null; when nothing
    was owned no deleter is called.  Both objects are gone afterwards. *)
Theorem moved_resource_released_once m this u y :
  objs m !! u = Some y → objs m !! this = None →
  ∃ m', (ctor_move this u ;; dtor this ;; dtor u) m = Some (tt, m') ∧
        objs m' = delete u (objs m) ∧
        (get y = nullptr → calls m' = calls m ∧ world m' = world m) ∧
        (get y ≠ nullptr →
           ∃ e, calls m' = calls m ++ [e] ∧
                ev_deleter e = get_deleter y ∧ ev_arg e = get y ∧
                get <$> ev_objs e !! u = Some nullptr).
Proof.
  intros Hy Hn. assert (this ≠ u) by congruence.
  rewrite (bind_Some _ _ _ _ _ (ctor_move_eq _ _ _ _ Hy Hn)).
  erewrite bind_Some; last by apply dtor_eq; simpl; apply lookup_insert_eq.
  set (m1 := after_dtor _ _ _).
  assert (objs m1 = <[u := mk 0 (moved_from (get_deleter y))]> (objs m))
    as Hm1.
  { subst m1. rewrite objs_after_dtor; simpl. by apply delete_insert_id,
      lookup_insert_None. }
  exists (Machine (delete u (objs m1)) (world m1) (calls m1)). split.
  { rewrite (dtor_eq _ _ (mk 0 (moved_from (get_deleter y)))); [done|].
    rewrite Hm1. apply lookup_insert_eq. }
  simpl. rewrite Hm1, delete_insert_eq. split; [done|].
  subst m1. clear Hm1. unfold after_dtor. rewrite !get_mk, !get_deleter_mk.
  destruct (N.eqb_spec (get y) 0) as [Hz | Hz]; simpl; split; try done.
  intros _. eexists. split; [done|]. simpl.
  by rewrite lookup_insert_ne, lookup_insert_eq.
Qed.

(** X13. [reset] with the pointer the object already holds: the deleter is
    called on that pointer, and the object still holds it afterwards. *)
Theorem reset_with_own_pointer m this x :
  objs m !! this = Some x → get x ≠ nullptr →
  ∃ m', reset this (get x) m = Some (tt, m') ∧
        objs m' = objs m ∧
        calls m' = calls m ++ [Call (get_deleter x) (get x) (objs m)].
Proof.
  intros Hx Hnn. eexists. split; [by apply reset_eq|].
  assert (<[this := mk (get x) (get_deleter x)]> (objs m) = objs m) as Hs
    by (rewrite mk_eta; by apply insert_id).
  rewrite objs_after_reset, Hs. split; [done|].
  unfold after_reset. by rewrite (proj2 (N.eqb_neq _ _) Hnn), Hs.
Qed.

End moves.

(** ** Exchange *)

Section exchange.
Context {D W : Type} `{!Deleter D W} `{!Movable D}.
Implicit Types (m : machine D W) (x y : Unique_ptr D) (a b tmp : ref)
  (p q : pointer) (d : D).

(** X7. [swap] is symmetric in its two objects, and doing it twice
    restores the machine. *)
Theorem swap_involutive m a b x y :
  objs m !! a = Some x → objs m !! b = Some y →
  swap b a m = swap a b m ∧
  (swap a b ;; swap a b) m = Some (tt, m).
Proof.
  intros Hx Hy. split.
  - rewrite (swap_eq _ _ _ _ _ Hx Hy), (swap_eq _ _ _ _ _ Hy Hx).
    enough (<[a := y]> (<[b := x]> (objs m))
            = <[b := x]> (<[a := y]> (objs m))) as -> by done.
    destruct (decide (a = b)); store_eq.
  - rewrite (bind_Some _ _ _ _ _ (swap_eq _ _ _ _ _ Hx Hy)).
    erewrite (swap_eq _ a b y x); simpl.
    + enough (<[b := y]> (<[a := x]> (<[b := x]> (<[a := y]> (objs m))))
              = objs m) as -> by (by rewrite machine_eta).
      store_eq.
    + rewrite lookup_insert. case_decide; simplify_eq; [done|].
      by rewrite lookup_insert_eq.
    + by rewrite lookup_insert_eq.
Qed.

(** A move assignment into an object that owns nothing calls no deleter. *)
Lemma assign_move_into_empty m this u x y :
  objs m !! this = Some x → objs m !! u = Some y → get x = nullptr →
  assign_move this u m =
    Some (tt, Machine (<[this := mk (get y)
                                    (if decide (this = u)
                                     then self_moved (get_deleter y)
                                     else get_deleter y)]>
                         (<[u := mk nullptr (moved_from (get_deleter y))]>
                            (objs m)))
                      (world m) (calls m)).
Proof.
  intros Hx Hy Hz. rewrite (assign_move_eq _ _ _ _ _ Hx Hy).
  rewrite <- (machine_eta (after_assign _ _ _ _ _ _ _)).
  rewrite objs_after_assign. unfold after_assign, after_reset.
  case_decide; simpl; [done|]. by rewrite Hz.
Qed.

(** The machine after [std_swap]. *)
Lemma std_swap_eq m tmp a b x y :
  objs m !! a = Some x → objs m !! b = Some y → objs m !! tmp = None →
  ∃ s, std_swap tmp a b m = Some (tt, Machine s (world m) (calls m)) ∧
       s !! tmp = None ∧
       get <$> s !! a = Some (get y) ∧ get <$> s !! b = Some (get x) ∧
       ∀ k, k ≠ a → k ≠ b → k ≠ tmp → s !! k = objs m !! k.
Proof.
  intros Hx Hy Hn. assert (tmp ≠ a) by congruence.
  assert (tmp ≠ b) by congruence.
  unfold std_swap.
  rewrite (bind_Some _ _ _ _ _ (ctor_move_eq _ _ _ _ Hx Hn)).
  set (dx := get_deleter x). set (dy := get_deleter y).
  destruct (decide (a = b)) as [-> | Hab].
  - (* one object: the first assignment is a self-move-assignment *)
    assert (y = x) as -> by congruence. subst dy.
    erewrite bind_Some; last first.
    { apply (assign_move_into_empty _ b b (mk 0 (moved_from dx))
                                    (mk 0 (moved_from dx))); simpl;
        [| |done]; by rewrite lookup_insert_ne, lookup_insert_eq. }
    rewrite decide_True by done. rewrite !get_mk, !get_deleter_mk.
    erewrite bind_Some; last first.
    { apply (assign_move_into_empty _ b tmp
               (mk 0 (self_moved (moved_from dx))) (mk (get x) dx));
        simpl; [| |done].
      - by rewrite lookup_insert_eq.
      - by rewrite !(lookup_insert_ne _ b tmp), lookup_insert_eq. }
    rewrite decide_False by done. rewrite !get_mk, !get_deleter_mk.
    erewrite dtor_eq; last first.
    { simpl. rewrite (lookup_insert_ne _ b tmp) by done.
      apply lookup_insert_eq. }
    unfold after_dtor; simpl. eexists. split; [reflexivity|].
    rewrite lookup_delete_eq. split; [done|].
    rewrite lookup_delete_ne, lookup_insert_eq by done.
    do 2 (split; [done|]).
    intros k ???. by rewrite lookup_delete_ne, !lookup_insert_ne.
  - erewrite bind_Some; last first.
    { apply (assign_move_into_empty _ a b (mk 0 (moved_from dx)) y); simpl;
        [| |done].
      - by rewrite lookup_insert_ne, lookup_insert_eq.
      - by rewrite !lookup_insert_ne. }
    rewrite decide_False by done.
    erewrite bind_Some; last first.
    { apply (assign_move_into_empty _ b tmp (mk 0 (moved_from dy))
                                    (mk (get x) dx)); simpl; [| |done].
      - by rewrite lookup_insert_ne, lookup_insert_eq.
      - by rewrite (lookup_insert_ne _ a tmp), (lookup_insert_ne _ b tmp),
          lookup_insert_eq. }
    rewrite decide_False by done. rewrite !get_mk, !get_deleter_mk.
    erewrite dtor_eq; last first.
    { simpl. rewrite (lookup_insert_ne _ b tmp) by done.
      apply lookup_insert_eq. }
    unfold after_dtor; simpl. eexists. split; [reflexivity|].
    rewrite lookup_delete_eq. split; [done|].
    rewrite !lookup_delete_ne by done.
    rewrite (lookup_insert_ne _ b a), (lookup_insert_ne _ tmp a),
      (lookup_insert_eq _ a), lookup_insert_eq by done.
    do 2 (split; [done|]).
    intros k ???. by rewrite lookup_delete_ne, !lookup_insert_ne.
Qed.

(** X14. The generic [std::swap] applied to two [Unique_ptr] objects (a
    move construction of a temporary, two move assignments, and the
    destruction of the temporary) exchanges the stored pointers as the
    member [swap] does: afterwards each of the two objects holds the
    pointer the other held, every object holds the pointer it holds after
    [swap], the temporary is gone, and neither of the two calls a
    deleter. *)
Theorem std_swap_is_swap m tmp a b x y :
  objs m !! a = Some x → objs m !! b = Some y → objs m !! tmp = None →
  ∃ m1 m2, std_swap tmp a b m = Some (tt, m1) ∧
           swap a b m = Some (tt, m2) ∧
           get <$> objs m1 !! a = Some (get y) ∧
           get <$> objs m1 !! b = Some (get x) ∧
           (∀ k, get <$> objs m1 !! k = get <$> objs m2 !! k) ∧
           calls m1 = calls m ∧ world m1 = world m ∧
           calls m2 = calls m ∧ world m2 = world m.
Proof.
  intros Hx Hy Hn.
  destruct (std_swap_eq _ _ _ _ _ _ Hx Hy Hn) as (s & -> & Ht & Ha & Hb & Hk).
  rewrite (swap_eq _ _ _ _ _ Hx Hy). eexists _, _.
  do 2 (split; [reflexivity|]). simpl. do 2 (split; [done|]).
  split; [|done]. intros k.
  destruct (decide (k = b)) as [-> | Hkb].
  { by rewrite Hb, lookup_insert_eq. }
  rewrite (lookup_insert_ne _ b k) by done.
  destruct (decide (k = a)) as [-> | Hka].
  { by rewrite Ha, lookup_insert_eq. }
  rewrite (lookup_insert_ne _ a k) by done.
  destruct (decide (k = tmp)) as [-> | Hkt]; [by rewrite Ht, Hn|].
  by rewrite Hk.
Qed.

End exchange.

(** ** Ordering *)

(** X12. The three-way comparison agrees with equality: [x <=> y] is
    "equal" exactly when [x == y], for objects of any two instantiations;
    comparing in the other direction reverses the result; the result
    depends on the stored pointers only; and [x <=> nullptr] is "equal"
    exactly when [x == nullptr]. *)
Theorem three_way_agrees_with_equality {D1 D2 : Type}
    (x : Unique_ptr D1) (y : Unique_ptr D2) :
  (operator_cmp x y = Eq ↔ operator_eq x y = true) ∧
  operator_cmp y x = CompOpp (operator_cmp x y) ∧
  (∀ (E1 E2 : Type) (d1 : E1) (d2 : E2),
     operator_cmp (mk (get x) d1) (mk (get y) d2) = operator_cmp x y) ∧
  (operator_cmp_nullptr x = Eq ↔ operator_eq_nullptr x = true).
Proof.
  unfold operator_cmp, operator_eq, operator_cmp_nullptr,
    operator_eq_nullptr, operator_bool.
  split; [by rewrite N.compare_eq_iff, N.eqb_eq|].
  split; [apply N.compare_antisym|]. split; [done|].
  rewrite negb_involutive. by rewrite N.compare_eq_iff, N.eqb_eq.
Qed.

(** ** What no operation does *)

Section all_operations.
Context {D W : Type} `{!Deleter D W} `{!Movable D}
  `{!DefaultConstructible D}.
Implicit Types (m : machine D W) (s : gmap ref (Unique_ptr D))
  (x y : Unique_ptr D) (this u i j k : ref) (p q : pointer) (o : op D)
  (e : event D).

Lemma released_spec this p s e :
  e ∈ released this p s →
  ∃ x, s !! this = Some x ∧ get x ≠ nullptr ∧
       e = Call (get_deleter x) (get x) (with_pointer this p s).
Proof.
  unfold released. destruct (s !! this) as [x|]; [|by intros ?%elem_of_nil].
  destruct (N.eqb_spec (get x) 0); simpl; [by intros ?%elem_of_nil|].
  intros ->%list_elem_of_singleton. by exists x.
Qed.


Lemma released_length this p s : (length (released this p s) ≤ 1)%nat.
Proof.
  unfold released. destruct (s !! this); [|simpl; lia].
  destruct (negb _); simpl; lia.
Qed.

Lemma events_of_length o s : (length (events_of o s) ≤ 1)%nat.
Proof.
  destruct o; simpl; try lia; try apply released_length.
  - destruct (s !! this); [|simpl; lia]. destruct (negb _); simpl; lia.
  - case_decide; [simpl; lia|].
    destruct (s !! u); [apply released_length | simpl; lia].
  - case_decide; [simpl; lia|].
    destruct (s !! u); [apply released_length | simpl; lia].
Qed.

Lemma events_of_spec o s e :
  e ∈ events_of o s →
  ev_arg e ≠ nullptr ∧
  ∃ i x, i ∈ operands o ∧ s !! i = Some x ∧
         get x = ev_arg e ∧ get_deleter x = ev_deleter e.
Proof.
  destruct o; simpl; try (by intros ?%elem_of_nil).
  - destruct (s !! this) as [x|] eqn:Hx; [|by intros ?%elem_of_nil].
    destruct (N.eqb_spec (get x) 0); simpl; [by intros ?%elem_of_nil|].
    intros ->%list_elem_of_singleton. split; [done|].
    exists this, x. split; [apply list_elem_of_here | done].
  - case_decide as Hne; [by intros ?%elem_of_nil|].
    destruct (s !! u) as [y|]; [|by intros ?%elem_of_nil].
    intros (x & Hx & Hnn & ->)%released_spec.
    rewrite lookup_insert_ne in Hx by done. split; [done|].
    exists this, x. split; [apply list_elem_of_here | done].
  - case_decide as Hne; [by intros ?%elem_of_nil|].
    destruct (s !! u) as [y|]; [|by intros ?%elem_of_nil].
    intros (x & Hx & Hnn & ->)%released_spec.
    rewrite lookup_insert_ne in Hx by done. split; [done|].
    exists this, x. split; [apply list_elem_of_here | done].
  - intros (x & Hx & Hnn & ->)%released_spec. split; [done|].
    exists this, x. split; [apply list_elem_of_here | done].
  - intros (x & Hx & Hnn & ->)%released_spec. split; [done|].
    exists this, x. split; [apply list_elem_of_here | done].
Qed.

(** X9. Whatever the operation, a deleter is called at most once, never
    on a null pointer, and only as the deleter stored in one of the
    objects the operation is applied to, on the pointer that object held
    before the operation.  The world changes through these calls only. *)
Theorem deleter_calls_are_owned o m :
  valid o (objs m) →
  ∃ m' l, exec o m = Some (tt, m') ∧
          calls m' = calls m ++ l ∧ world m' = replay l (world m) ∧
          (length l ≤ 1)%nat ∧
          ∀ e, e ∈ l →
            ev_arg e ≠ nullptr ∧
            ∃ i x, i ∈ operands o ∧ objs m !! i = Some x ∧
                   get x = ev_arg e ∧ get_deleter x = ev_deleter e.
Proof.
  intros Hv. eexists _, (events_of o (objs m)).
  split; [by apply exec_summary|]. simpl. do 2 (split; [done|]).
  split; [apply events_of_length | apply events_of_spec].
Qed.

Lemma objs_after_frame o s k :
  k ∉ operands o → objs_after o s !! k = s !! k.
Proof.
  destruct o; simpl; unfold moved, with_pointer, exchanged;
    rewrite ?list_elem_of_singleton, ?elem_of_cons, ?elem_of_nil;
    intros Hk; repeat case_decide;
    repeat match goal with
           | |- context [match s !! ?i with _ => _ end] => destruct (s !! i)
           end;
    rewrite ?lookup_insert_ne, ?lookup_delete_ne by naive_solver; done.
Qed.

(** X11. An operation leaves the stored pointer of every object it is not
    applied to as it was: such an object is alive or not as before, and
    holds the pointer it held. *)
Theorem other_objects_untouched o m :
  valid o (objs m) →
  ∃ m', exec o m = Some (tt, m') ∧
        ∀ k, k ∉ operands o → get <$> objs m' !! k = get <$> objs m !! k.
Proof.
  intros Hv. eexists. split; [by apply exec_summary|]. simpl.
  intros k Hk. by rewrite objs_after_frame.
Qed.



End all_operations.

(** ** Creation *)

Section creation_lemmas.
Context {V : Type} `{!DefaultInit V}.
Variable operator_new : gmap N (option V) → pointer.
Implicit Types (m : machine Default_delete (gmap N (option V)))
  (this : ref) (v : V) (init : option V).

(** The allocation function returns an address that is not null and at
    which nothing is allocated. *)
Hypothesis operator_new_fresh :
  ∀ heap, operator_new heap ≠ nullptr ∧ heap !! operator_new heap = None.

Lemma new_then_construct_eq m this init :
  objs m !! this = None →
  (let* p := new_expr operator_new init in ctor_ptr this p) m =
    Some (tt, Machine (<[this := mk (operator_new (world m)) default_delete]>
                         (objs m))
                      (<[operator_new (world m) := init]> (world m))
                      (calls m)).
Proof. intros Hn. unfold bind, new_expr, ctor_ptr. by rewrite construct_eq. Qed.

(** X15. [make_unique] gives an object that holds a non-null pointer (its
    conversion to [bool] is [true]), and dereferencing it yields the
    value it was made from; [make_unique_for_overwrite] gives an object
    that holds a non-null pointer to a default-initialized object:
    dereferencing it yields what default-initialization gives, which for
    a scalar type is no value.  Neither calls a deleter. *)
Theorem make_unique_dereference m this v :
  objs m !! this = None →
  (∃ m', (make_unique operator_new this v ;; operator_star this) m
           = Some (Some v, m') ∧
         get <$> objs m' !! this = Some (operator_new (world m)) ∧
         operator_bool <$> objs m' !! this = Some true ∧
         calls m' = calls m) ∧
  (∃ m', (make_unique_for_overwrite operator_new this ;; operator_star this) m
           = Some (default_init, m') ∧
         operator_bool <$> objs m' !! this = Some true ∧
         calls m' = calls m).
Proof.
  intros Hn. destruct (operator_new_fresh (world m)) as [Hnn _].
  split.
  - eexists. split.
    { unfold make_unique.
      rewrite (bind_Some _ _ _ _ _ (new_then_construct_eq _ _ _ Hn)).
      unfold operator_star.
      erewrite bind_Some; last by apply fetch_eq, lookup_insert_eq.
      simpl. by rewrite lookup_insert_eq. }
    simpl. rewrite lookup_insert_eq. simpl. unfold operator_bool.
    rewrite get_mk. by rewrite (proj2 (N.eqb_neq _ _) Hnn).
  - eexists. split.
    { unfold make_unique_for_overwrite.
      rewrite (bind_Some _ _ _ _ _ (new_then_construct_eq _ _ _ Hn)).
      unfold operator_star.
      erewrite bind_Some; last by apply fetch_eq, lookup_insert_eq.
      simpl. by rewrite lookup_insert_eq. }
    simpl. rewrite lookup_insert_eq. simpl. unfold operator_bool.
    rewrite get_mk. by rewrite (proj2 (N.eqb_neq _ _) Hnn).
Qed.



End creation_lemmas.

(** ** Released pointers are not held; held pointers are not invented *)

Section provenance.
Context {D W : Type} `{!Deleter D W} `{!Movable D}
  `{!DefaultConstructible D}.
Implicit Types (m : machine D W) (s : gmap ref (Unique_ptr D))
  (x y : Unique_ptr D) (this u i j k : ref) (p q : pointer) (o : op D)
  (e : event D).


Lemma objs_after_provenance o s j y :
  valid o s → objs_after o s !! j = Some y → get y ≠ nullptr →
  (∃ i x, s !! i = Some x ∧ get x = get y) ∨
  (∃ this, adopted o = Some (this, get y)).
Proof.
  intros Hv.
  destruct o as [this | this p | this p d | this u | conv this u | this
                | this u | conv this u | this | this | this p | this u
                | this u]; simpl in Hv |- *;
    unfold moved, with_pointer, exchanged;
    repeat match type of Hv with
           | _ ∧ _ => destruct Hv as [? Hv]
           | is_Some _ => destruct Hv as [? Hv]
           end;
    repeat match goal with
           | H : is_Some _ |- _ => destruct H as [? H]
           | H : s !! ?i = Some _ |- context [s !! ?i] => rewrite H
           end;
    repeat case_decide; rewrite ?lookup_insert, ?lookup_delete;
    repeat case_decide; intros Hy Hnn; simplify_eq; eauto.
Qed.

Lemma objs_after_not_dangling o s e j y :
  unique_ownership s → valid o s →
  (∀ this p, adopted o = Some (this, p) →
             p = nullptr ∨ ∀ i x, s !! i = Some x → get x ≠ p) →
  e ∈ events_of o s → objs_after o s !! j = Some y →
  get y ≠ ev_arg e.
Proof.
  intros Hs Hv Ha He.
  destruct (events_of_spec _ _ _ He) as [Hnn _].
  (* an object other than [this] does not hold what [this] held *)
  assert (∀ this x, s !! this = Some x → ev_arg e = get x → j ≠ this →
                    s !! j = Some y → get y ≠ ev_arg e) as Hother.
  { intros this x Hx Harg Hj Hy Heq. apply Hj, (Hs j this y x); congruence. }
  destruct o as [this | this p | this p d | this u | conv this u | this
                | this u | conv this u | this | this | this p | this u
                | this u]; simpl in Hv, He |- *;
    try (by apply elem_of_nil in He).
  - destruct Hv as [x Hx]. rewrite Hx in He.
    destruct (negb (get x =? 0)); [|by apply elem_of_nil in He].
    apply list_elem_of_singleton in He as ->. simpl in Hnn |- *.
    rewrite lookup_delete. case_decide as Hj; [done|].
    by apply (Hother this x).
  - destruct Hv as [[x Hx] [y0 Hy0]].
    case_decide as Hne; [by apply elem_of_nil in He|]. rewrite Hy0 in He.
    apply released_spec in He as (x' & Hx' & _ & ->). simpl in Hnn |- *.
    rewrite lookup_insert_ne in Hx' by done. simplify_eq.
    unfold moved. rewrite Hy0.
    destruct (decide (j = this)) as [-> | Hjt].
    { rewrite lookup_insert_eq. intros [= <-] Heq. rewrite get_mk in Heq.
      apply Hne, (Hs this u x y0); congruence. }
    rewrite lookup_insert_ne by done.
    destruct (decide (j = u)) as [-> | Hju].
    { rewrite lookup_insert_eq. intros [= <-]. rewrite get_mk. simpl.
      congruence. }
    rewrite lookup_insert_ne by done. by apply (Hother this x).
  - destruct Hv as [[x Hx] [y0 Hy0]].
    case_decide as Hne; [by apply elem_of_nil in He|]. rewrite Hy0 in He.
    apply released_spec in He as (x' & Hx' & _ & ->). simpl in Hnn |- *.
    rewrite lookup_insert_ne in Hx' by done. simplify_eq.
    unfold moved. rewrite Hy0.
    destruct (decide (j = this)) as [-> | Hjt].
    { rewrite lookup_insert_eq. intros [= <-] Heq. rewrite get_mk in Heq.
      apply Hne, (Hs this u x y0); congruence. }
    rewrite lookup_insert_ne by done.
    destruct (decide (j = u)) as [-> | Hju].
    { rewrite lookup_insert_eq. intros [= <-]. rewrite get_mk. simpl.
      congruence. }
    rewrite lookup_insert_ne by done. by apply (Hother this x).
  - apply released_spec in He as (x & Hx & _ & ->). simpl in Hnn |- *.
    unfold with_pointer. rewrite Hx.
    destruct (decide (j = this)) as [-> | Hjt].
    { rewrite lookup_insert_eq. intros [= <-]. rewrite get_mk. simpl.
      congruence. }
    rewrite lookup_insert_ne by done. by apply (Hother this x).
  - apply released_spec in He as (x & Hx & _ & ->). simpl in Hnn |- *.
    unfold with_pointer. rewrite Hx.
    destruct (decide (j = this)) as [-> | Hjt].
    { rewrite lookup_insert_eq. intros [= <-]. rewrite get_mk. simpl.
      destruct (Ha this p eq_refl) as [-> | Hp]; [congruence|].
      apply not_eq_sym. by apply (Hp this). }
    rewrite lookup_insert_ne by done. by apply (Hother this x).
Qed.

(** X18. While no two live objects hold the same non-null pointer, and a
    pointer taken from the caller is null or held by no live object, no
    live object is left holding a pointer that the operation has passed to
    a deleter. *)
Theorem released_pointer_not_held o m :
  unique_ownership (objs m) → valid o (objs m) →
  (∀ this p, adopted o = Some (this, p) →
             p = nullptr ∨ ∀ i x, objs m !! i = Some x → get x ≠ p) →
  ∃ m' l, exec o m = Some (tt, m') ∧ calls m' = calls m ++ l ∧
          ∀ e j y, e ∈ l → objs m' !! j = Some y → get y ≠ ev_arg e.
Proof.
  intros Hs Hv Ha. eexists _, (events_of o (objs m)).
  split; [by apply exec_summary|]. simpl. split; [done|].
  intros e j y. by apply objs_after_not_dangling.
Qed.

(** X19. No operation invents a pointer: a non-null pointer that a live
    object holds after the operation was held by a live object before it,
    or is the pointer the operation took from its caller. *)
Theorem held_pointer_has_origin o m :
  valid o (objs m) →
  ∃ m', exec o m = Some (tt, m') ∧
        ∀ j y, objs m' !! j = Some y → get y ≠ nullptr →
          (∃ i x, objs m !! i = Some x ∧ get x = get y) ∨
          (∃ this, adopted o = Some (this, get y)).
Proof.
  intros Hv. eexists. split; [by apply exec_summary|]. simpl.
  intros j y. by apply objs_after_provenance.
Qed.

End provenance.

(** ** Memory safety with [Default_delete] *)

Section heap_safety.
Context {V : Type}.
Implicit Types (m : machine Default_delete (gmap N (option V)))
  (heap : gmap N (option V)) (l : list (event Default_delete))
  (e : event Default_delete) (a : pointer) (o : op Default_delete).





End heap_safety.

(** The address [first_free] returns is not null and not allocated. *)
Lemma first_free_fresh {V : Type} (heap : gmap N (option V)) :
  first_free heap ≠ nullptr ∧ heap !! first_free heap = None.
Proof.
  unfold first_free.
  pose proof (is_fresh ({[0]} ∪ dom heap)) as Hf.
  split; [set_solver|]. apply not_elem_of_dom. set_solver.
Qed.

(** ** The further theorems at concrete machines *)

Lemma construct_destroy_scope_witness :
  (objs two_owners !! 3%positive = None ∧
   (((ctor_ptr_deleter 3 9 default_delete : M _ (gset N) unit)
       = ctor_default 3 ∧ mk 9 default_delete = mk nullptr value_init) ∨
    ((ctor_ptr_deleter 3 9 default_delete : M _ (gset N) unit)
       = ctor_ptr 3 9 ∧ mk 9 default_delete = mk 9 value_init) ∨
    ((ctor_ptr_deleter 3 9 default_delete : M _ (gset N) unit)
       = ctor_ptr_deleter 3 9 default_delete ∧
     mk 9 default_delete = mk 9 default_delete))) ∧
  ∃ m1 m2,
    ctor_ptr_deleter 3 9 default_delete two_owners = Some (tt, m1) ∧
    objs m1 = <[3%positive := mk 9 default_delete]> (objs two_owners) ∧
    calls m1 = [] ∧ world m1 = {[ 5; 7 ]} ∧
    dtor 3 m1 = Some (tt, m2) ∧
    objs m2 = objs two_owners ∧
    calls m2 = [] ++
      (if decide (9 = nullptr) then []
       else [Call default_delete 9 (objs m1)]).
Proof.
  assert (objs two_owners !! 3%positive = None) as Hn by reflexivity.
  split.
  - split; [exact Hn|]. right. right. by split.
  - exact (construct_destroy_scope two_owners 3 9 default_delete Hn
             (ctor_ptr_deleter 3 9 default_delete) (mk 9 default_delete)
             (or_intror (or_intror (conj eq_refl eq_refl)))).
Defined.

Lemma release_then_destroy_witness :
  objs two_owners !! 1%positive = Some (mk 5 default_delete) ∧
  (let* p := release 1 in dtor 1 ;; ret p) two_owners =
    Some (5, Machine (delete 1%positive (objs two_owners)) ({[ 5; 7 ]}) []).
Proof.
  split; [reflexivity|].
  exact (release_then_destroy two_owners 1 (mk 5 default_delete) eq_refl).
Defined.

Lemma converting_move_construction_witness :
  (objs two_labelled !! 1%positive = Some (mk 5 (labelled [1; 2])) ∧
   objs two_labelled !! 3%positive = None) ∧
  ∃ m', ctor_convert (λ e, (labelled (9 :: labels e), labelled [])) 3 1
          two_labelled = Some (tt, m') ∧
        objs m' !! 3%positive = Some (mk 5 (labelled [9; 1; 2])) ∧
        get <$> objs m' !! 1%positive = Some nullptr ∧
        (∀ j, j ≠ 3%positive → j ≠ 1%positive →
              get <$> objs m' !! j = get <$> objs two_labelled !! j) ∧
        calls m' = [] ∧ world m' = [].
Proof.
  split; [by split|].
  exact (converting_move_construction
           (λ e, (labelled (9 :: labels e), labelled [])) two_labelled 3 1
           (mk 5 (labelled [1; 2])) eq_refl eq_refl).
Defined.

Lemma move_assignment_releases_old_witness :
  (objs two_labelled !! 1%positive = Some (mk 5 (labelled [1; 2])) ∧
   objs two_labelled !! 2%positive = Some (mk 7 (labelled [3])) ∧
   1%positive ≠ 2%positive ∧ 5 ≠ nullptr) ∧
  ∃ m' e, assign_move 1 2 two_labelled = Some (tt, m') ∧
          calls m' = [e] ∧
          ev_deleter e = labelled [1; 2] ∧ ev_arg e = 5 ∧
          ev_objs e !! 1%positive = Some (mk 7 (labelled [1; 2])) ∧
          ev_objs e !! 2%positive = Some (mk nullptr (labelled [3])) ∧
          world m' = [(5, [1; 2])] ∧
          objs m' !! 1%positive = Some (mk 7 (labelled [3])) ∧
          get <$> objs m' !! 2%positive = Some nullptr.
Proof.
  assert (1 ≠ 2)%positive as Hne by discriminate.
  assert (5 ≠ 0) as Hnn by discriminate.
  split; [done|].
  exact (move_assignment_releases_old two_labelled 1 2
           (mk 5 (labelled [1; 2])) (mk 7 (labelled [3]))
           eq_refl eq_refl Hne Hnn).
Defined.

(** The deleter of the source after the move assignment is what the move
    left in it. *)
Example move_assignment_moves_deleter :
  (λ '(_, m'), objs m' !! 2%positive) <$> assign_move 1 2 two_labelled
  = Some (Some (mk nullptr (labelled []))).
Proof. vm_compute. reflexivity. Qed.

Lemma converting_move_assignment_witness :
  (objs two_labelled !! 1%positive = Some (mk 5 (labelled [1; 2])) ∧
   objs two_labelled !! 2%positive = Some (mk 7 (labelled [3])) ∧
   1%positive ≠ 2%positive) ∧
  ∃ m', assign_convert (λ e, (labelled (9 :: labels e), labelled [])) 1 2
          two_labelled = Some (tt, m') ∧
        objs m' !! 1%positive = Some (mk 7 (labelled [9; 3])) ∧
        get <$> objs m' !! 2%positive = Some nullptr ∧
        (∀ j, j ≠ 1%positive → j ≠ 2%positive →
              get <$> objs m' !! j = get <$> objs two_labelled !! j) ∧
        (5 = nullptr → calls m' = [] ∧ world m' = []) ∧
        (5 ≠ nullptr →
           ∃ e, calls m' = [e] ∧ ev_deleter e = labelled [1; 2] ∧
                ev_arg e = 5).
Proof.
  assert (1 ≠ 2)%positive as Hne by discriminate.
  split; [done|].
  exact (converting_move_assignment
           (λ e, (labelled (9 :: labels e), labelled [])) two_labelled 1 2
           (mk 5 (labelled [1; 2])) (mk 7 (labelled [3]))
           eq_refl eq_refl Hne).
Defined.

Lemma null_assignment_witness :
  objs two_owners !! 1%positive = Some (mk 5 default_delete) ∧
  ∃ m', assign_nullptr 1 two_owners = Some (tt, m') ∧
        assign_nullptr 1 two_owners = reset 1 nullptr two_owners ∧
        objs m' !! 1%positive = Some (mk nullptr default_delete) ∧
        (5 = nullptr → calls m' = [] ∧ world m' = {[ 5; 7 ]}) ∧
        (5 ≠ nullptr → calls m' = [Call default_delete 5 (objs m')]) ∧
        assign_nullptr 1 m' = Some (tt, m').
Proof.
  split; [reflexivity|].
  exact (null_assignment two_owners 1 (mk 5 default_delete) eq_refl).
Defined.

Lemma moved_resource_released_once_witness :
  (objs two_owners !! 1%positive = Some (mk 5 default_delete) ∧
   objs two_owners !! 3%positive = None) ∧
  ∃ m', (ctor_move 3 1 ;; dtor 3 ;; dtor 1) two_owners = Some (tt, m') ∧
        objs m' = delete 1%positive (objs two_owners) ∧
        (5 = nullptr → calls m' = [] ∧ world m' = {[ 5; 7 ]}) ∧
        (5 ≠ nullptr →
           ∃ e, calls m' = [e] ∧
                ev_deleter e = default_delete ∧ ev_arg e = 5 ∧
                get <$> ev_objs e !! 1%positive = Some nullptr).
Proof.
  split; [by split|].
  exact (moved_resource_released_once two_owners 3 1 (mk 5 default_delete)
           eq_refl eq_refl).
Defined.

Lemma reset_with_own_pointer_witness :
  (objs two_owners !! 1%positive = Some (mk 5 default_delete) ∧
   5 ≠ nullptr) ∧
  ∃ m', reset 1 5 two_owners = Some (tt, m') ∧
        objs m' = objs two_owners ∧
        calls m' = [Call default_delete 5 (objs two_owners)].
Proof.
  assert (5 ≠ 0) as Hnn by discriminate.
  split; [done|].
  exact (reset_with_own_pointer two_owners 1 (mk 5 default_delete)
           eq_refl Hnn).
Defined.

Lemma swap_involutive_witness :
  (objs two_owners !! 1%positive = Some (mk 5 default_delete) ∧
   objs two_owners !! 2%positive = Some (mk 7 default_delete)) ∧
  swap 2 1 two_owners = swap 1 2 two_owners ∧
  (swap 1 2 ;; swap 1 2) two_owners = Some (tt, two_owners).
Proof.
  split; [by split|].
  exact (swap_involutive two_owners 1 2 (mk 5 default_delete)
           (mk 7 default_delete) eq_refl eq_refl).
Defined.

Lemma std_swap_is_swap_witness :
  (objs two_labelled !! 1%positive = Some (mk 5 (labelled [1; 2])) ∧
   objs two_labelled !! 2%positive = Some (mk 7 (labelled [3])) ∧
   objs two_labelled !! 3%positive = None) ∧
  ∃ m1 m2, std_swap 3 1 2 two_labelled = Some (tt, m1) ∧
           swap 1 2 two_labelled = Some (tt, m2) ∧
           get <$> objs m1 !! 1%positive = Some 7 ∧
           get <$> objs m1 !! 2%positive = Some 5 ∧
           (∀ k, get <$> objs m1 !! k = get <$> objs m2 !! k) ∧
           calls m1 = [] ∧ world m1 = [] ∧
           calls m2 = [] ∧ world m2 = [].
Proof.
  split; [done|].
  exact (std_swap_is_swap two_labelled 3 1 2 (mk 5 (labelled [1; 2]))
           (mk 7 (labelled [3])) eq_refl eq_refl eq_refl).
Defined.

Lemma deleter_calls_are_owned_witness :
  valid (Assign_move 2 1) (objs two_owners) ∧
  ∃ m' l, exec (Assign_move 2 1) two_owners = Some (tt, m') ∧
          calls m' = [] ++ l ∧ world m' = replay l ({[ 5; 7 ]}) ∧
          (length l ≤ 1)%nat ∧
          ∀ e, e ∈ l →
            ev_arg e ≠ nullptr ∧
            ∃ i x, i ∈ [2%positive; 1%positive] ∧
                   objs two_owners !! i = Some x ∧
                   get x = ev_arg e ∧ get_deleter x = ev_deleter e.
Proof.
  assert (valid (Assign_move 2 1) (objs two_owners)) as Hv
    by (split; eexists; reflexivity).
  split; [exact Hv|].
  exact (deleter_calls_are_owned (Assign_move 2 1) two_owners Hv).
Defined.

Lemma other_objects_untouched_witness :
  valid (Call_swap 1 2) (objs two_owners_one_empty) ∧
  ∃ m', exec (Call_swap 1 2) two_owners_one_empty = Some (tt, m') ∧
        ∀ k, k ∉ [1%positive; 2%positive] →
             get <$> objs m' !! k = get <$> objs two_owners_one_empty !! k.
Proof.
  assert (valid (Call_swap 1 2) (objs two_owners_one_empty)) as Hv
    by (split; eexists; reflexivity).
  split; [exact Hv|].
  exact (other_objects_untouched (Call_swap 1 2) two_owners_one_empty Hv).
Defined.


Lemma released_pointer_not_held_witness :
  (unique_ownership (objs two_owners) ∧
   valid (Call_reset 1 9) (objs two_owners) ∧
   (9 = nullptr ∨ ∀ i x, objs two_owners !! i = Some x → get x ≠ 9)) ∧
  ∃ m' l, exec (Call_reset 1 9) two_owners = Some (tt, m') ∧
          calls m' = [] ++ l ∧
          ∀ e j y, e ∈ l → objs m' !! j = Some y → get y ≠ ev_arg e.
Proof.
  assert (unique_ownership (objs two_owners)) as Hu by decide_by_compute.
  assert (valid (Call_reset 1 9) (objs two_owners)) as Hv
    by (eexists; reflexivity).
  assert (map_Forall (λ _ x, get x ≠ 9) (objs two_owners)) as Hf
    by decide_by_compute.
  split; [split; [exact Hu | split; [exact Hv | right; exact Hf]]|].
  apply (released_pointer_not_held (Call_reset 1 9) two_owners Hu Hv).
  intros this p Hadopt. injection Hadopt as <- <-. right. exact Hf.
Defined.

Lemma held_pointer_has_origin_witness :
  valid (Ctor_ptr 3 9) (objs two_owners) ∧
  ∃ m', exec (Ctor_ptr 3 9) two_owners = Some (tt, m') ∧
        ∀ j y, objs m' !! j = Some y → get y ≠ nullptr →
          (∃ i x, objs two_owners !! i = Some x ∧ get x = get y) ∨
          (∃ this, adopted (Ctor_ptr (D:=Default_delete) 3 9)
                     = Some (this, get y)).
Proof.
  assert (valid (Ctor_ptr 3 9) (objs two_owners)) as Hv by reflexivity.
  split; [exact Hv|].
  exact (held_pointer_has_origin (Ctor_ptr 3 9) two_owners Hv).
Defined.

Lemma make_unique_dereference_witness :
  ((∀ heap : gmap N (option Z),
      first_free heap ≠ nullptr ∧ heap !! first_free heap = None) ∧
   objs one_int !! 2%positive = None) ∧
  (∃ m', (make_unique first_free 2 7%Z ;; operator_star 2) one_int
           = Some (Some 7%Z, m') ∧
         get <$> objs m' !! 2%positive = Some (first_free (world one_int)) ∧
         operator_bool <$> objs m' !! 2%positive = Some true ∧
         calls m' = []) ∧
  (∃ m', (make_unique_for_overwrite first_free 2 ;; operator_star 2) one_int
           = Some (None, m') ∧
         operator_bool <$> objs m' !! 2%positive = Some true ∧
         calls m' = []).
Proof.
  split; [split; [apply first_free_fresh | reflexivity]|].
  exact (make_unique_dereference first_free first_free_fresh one_int 2 7%Z
           eq_refl).
Defined.




(** [make_unique_for_overwrite] for a class type: the object is there. *)
Example make_unique_for_overwrite_class :
  fst <$> (make_unique_for_overwrite first_free 1 ;; operator_star 1)
            (Machine ∅ (∅ : gmap N (option struct_S)) [])
  = Some (Some S_object).
Proof. vm_compute. reflexivity. Qed.

(** [make_unique<int>(42)] and the dereference, as in the test
    "Creation". *)
Example test_creation_passes :
  fst <$> (make_unique first_free 1 42%Z ;; operator_star 1)
            (Machine ∅ ∅ []) = Some (Some 42%Z).
Proof. vm_compute. reflexivity. Qed.
